(** * Pod template configuration of the elastic job controller

    A shallow embedding of [kubernetes/controllers/pod.go]: the pod
    lifecycle operations [CreatePod], [DeletePod], [GetPodsForJob] and the
    template transformation [SetClusterSpecForPod] with its two helpers
    [InsertTorchArgs] and [ModifyVolumeMount].

    Conventions of the embedding:
    - a Go [string] is a [string] (a sequence of bytes), a [[]string] is a
      [list string], an [int] or [int32] is a [Z] inside its range (the code
      does no arithmetic on replica counts, only [insertIndex += 1]);
    - a struct is a record, one module per struct so that fields keep their
      Go names; an optional pointer field is an [option];
    - a function that mutates its argument through a pointer returns the
      updated value;
    - calls to the cluster client, the event recorder and the logger are
      recorded, in order, in a trace threaded by a small state monad. *)

From Stdlib Require Import ZArith List String Ascii Bool Lia Permutation.
From Stdlib Require Import DecimalString.
Import ListNotations.

Local Open Scope string_scope.
Local Open Scope list_scope.
Local Open Scope Z_scope.

(* ------------------------------------------------------------------ *)
(** ** The parts of Go's [strings] and [strconv] packages the code calls *)
(* ------------------------------------------------------------------ *)

Module strings.

(** [Index_from substr s i]: the first position [>= i] at which [substr]
    occurs, where [s] is the text from position [i] on; [-1] if none. *)
Fixpoint Index_from (substr s : string) (i : Z) {struct s} : Z :=
  match s with
  | EmptyString => if prefix substr s then i else -1
  | String _ s' => if prefix substr s then i else Index_from substr s' (i + 1)
  end.

(** [strings.Index(s, substr)] *)
Definition Index (s substr : string) : Z := Index_from substr s 0.

(** [strings.Contains(s, substr)], which is [Index(s, substr) >= 0] *)
Definition Contains (s substr : string) : bool := 0 <=? Index s substr.

(** [LastIndex_from substr s i]: the last position [>= i] at which
    [substr] occurs, where [s] is the text from position [i] on. *)
Fixpoint LastIndex_from (substr s : string) (i : Z) {struct s} : Z :=
  match s with
  | EmptyString => if prefix substr s then i else -1
  | String _ s' =>
      let later := LastIndex_from substr s' (i + 1) in
      if 0 <=? later then later
      else if prefix substr s then i else -1
  end.

(** [strings.LastIndex(s, substr)] *)
Definition LastIndex (s substr : string) : Z := LastIndex_from substr s 0.

(** the slice expression [s[:hi]] for [0 <= hi <= len(s)] *)
Definition slice_to (s : string) (hi : Z) : string :=
  substring 0 (Z.to_nat hi) s.

End strings.

Module strconv.

(** [strconv.Itoa]: the decimal text of an integer, with a leading [-]
    for a negative one. *)
Definition Itoa (i : Z) : string := NilZero.string_of_int (Z.to_int i).

End strconv.

(* ------------------------------------------------------------------ *)
(** ** Data model: the fields of the API objects the code reads or writes *)
(* ------------------------------------------------------------------ *)

Definition int32 := Z.

(** [map[string]string], passed through to the client unread *)
Definition Labels := list (string * string).

Module ObjectMeta.
Record t := mk {
  Name : string;
  Namespace : string;
  Labels : list (string * string)
}.
End ObjectMeta.

Module Container.
Record t := mk {
  Name : string;
  Image : string;
  Command : list string;
  Args : list string;
  WorkingDir : string
}.

(** the assignment [container.Args = args] *)
Definition set_Args (c : t) (args : list string) : t :=
  {| Name := Name c; Image := Image c; Command := Command c;
     Args := args; WorkingDir := WorkingDir c |}.
End Container.

Module PersistentVolumeClaimVolumeSource.
Record t := mk {
  ClaimName : string;
  ReadOnly : bool
}.

(** the assignment [pvc.ClaimName = name] *)
Definition set_ClaimName (p : t) (name : string) : t :=
  {| ClaimName := name; ReadOnly := ReadOnly p |}.
End PersistentVolumeClaimVolumeSource.

Module VolumeSource.
(** Each member is an optional pointer; [None] is the nil pointer. *)
Record t := mk {
  HostPath : option string;
  EmptyDir : option string;
  PersistentVolumeClaim : option PersistentVolumeClaimVolumeSource.t
}.

Definition set_PersistentVolumeClaim
    (s : t) (p : option PersistentVolumeClaimVolumeSource.t) : t :=
  {| HostPath := HostPath s; EmptyDir := EmptyDir s;
     PersistentVolumeClaim := p |}.
End VolumeSource.

Module Volume.
Record t := mk {
  Name : string;
  VolumeSource : VolumeSource.t
}.

Definition set_VolumeSource (v : t) (s : VolumeSource.t) : t :=
  {| Name := Name v; VolumeSource := s |}.
End Volume.

Module PodSpec.
Record t := mk {
  Volumes : list Volume.t;
  Containers : list Container.t;
  RestartPolicy : string
}.

Definition set_Volumes (s : t) (vs : list Volume.t) : t :=
  {| Volumes := vs; Containers := Containers s;
     RestartPolicy := RestartPolicy s |}.

Definition set_Containers (s : t) (cs : list Container.t) : t :=
  {| Volumes := Volumes s; Containers := cs;
     RestartPolicy := RestartPolicy s |}.
End PodSpec.

Module PodTemplateSpec.
Record t := mk {
  ObjectMeta : ObjectMeta.t;
  Spec : PodSpec.t
}.

Definition set_Spec (p : t) (s : PodSpec.t) : t :=
  {| ObjectMeta := ObjectMeta p; Spec := s |}.
End PodTemplateSpec.

Module Pod.
Record t := mk {
  ObjectMeta : ObjectMeta.t;
  Spec : PodSpec.t
}.
Definition Name (p : t) : string := ObjectMeta.Name (ObjectMeta p).
Definition Namespace (p : t) : string := ObjectMeta.Namespace (ObjectMeta p).
End Pod.

(** Modelled from the spec: the declaration of [v1alpha1.ElasticJob] is in
    the API package, outside this file. The spec gives a job an identity
    (name, namespace), a rendezvous endpoint and optional explicit
    [minReplicas] and [maxReplicas]; the field names are the ones pod.go
    uses ([Spec.RdzvEndpoint], [Spec.MinReplicas], [Spec.MaxReplicas],
    [Name] through the embedded object metadata). *)
Module ElasticJobSpec.
Record t := mk {
  RdzvEndpoint : string;
  MinReplicas : option int32;
  MaxReplicas : option int32
}.
End ElasticJobSpec.

Module ElasticJob.
Record t := mk {
  ObjectMeta : ObjectMeta.t;
  Spec : ElasticJobSpec.t
}.
Definition Name (j : t) : string := ObjectMeta.Name (ObjectMeta j).
Definition GetName (j : t) : string := Name j.
End ElasticJob.

(** Go's [error]: an error value is its message, what [Error()] returns. *)
Inductive error := errorString (msg : string).

Definition Error (e : error) : string := let 'errorString msg := e in msg.

(** The dynamic content of an [interface{}] argument, as far as the type
    assertion [job.( *v1alpha1.ElasticJob)] and the type switch of
    [meta.Accessor] tell values apart. *)
Inductive any :=
| ElasticJobPtr (j : ElasticJob.t)   (* a [*v1alpha1.ElasticJob] *)
| OtherObject (m : ObjectMeta.t)     (* another type with object metadata,
                                        such as a [*corev1.Pod] *)
| NotObject.                         (* [nil], or a value without metadata *)

(** A function that returns, or panics with a run-time error. *)
Inductive outcome (A : Type) :=
| Returned (a : A)
| Panicked (msg : string).
Arguments Returned {A} a.
Arguments Panicked {A} msg.

(* ------------------------------------------------------------------ *)
(** ** InsertTorchArgs *)
(* ------------------------------------------------------------------ *)

Definition sentinel : string := "torchelastic.distributed.launch".

(** The loop [for i := len(args) - 1; i >= 0; i--] with its [break]:
    [scanBack args n] visits the positions [n-1], [n-2], ..., [0] and
    yields the first one that holds the sentinel; [-1], the initial value
    of [insertIndex], when the loop runs to its end. *)
Fixpoint scanBack (args : list string) (n : nat) : Z :=
  match n with
  | O => -1
  | S i =>
      if String.eqb (nth i args "") sentinel then Z.of_nat i
      else scanBack args i
  end.

(** [insertIndex] after [insertIndex += 1] *)
Definition insertIndex (args : list string) : Z :=
  scanBack args (List.length args) + 1.

(** [append(args[:insertIndex], append(torchArgs, args[insertIndex:]...)...)] *)
Definition insertAt (args torchArgs : list string) (idx : Z) : list string :=
  firstn (Z.to_nat idx) args ++ (torchArgs ++ skipn (Z.to_nat idx) args).

Definition InsertTorchArgs (container : Container.t) (torchArgs : list string)
  : Container.t :=
  Container.set_Args container
    (insertAt (Container.Args container) torchArgs
       (insertIndex (Container.Args container))).

(* ------------------------------------------------------------------ *)
(** ** ModifyVolumeMount *)
(* ------------------------------------------------------------------ *)

(** The body of [for _, v := range podTemplate.Spec.Volumes]. The loop
    variable [v] is a copy of the volume, but the claim source is reached
    through the pointer [v.VolumeSource.PersistentVolumeClaim], which the
    copy shares with the volume in the list: the assignment to [ClaimName]
    updates the volume of the template. *)
Definition reindexVolume (v : Volume.t) (index : string) : Volume.t :=
  match VolumeSource.PersistentVolumeClaim (Volume.VolumeSource v) with
  | Some pvc =>
      let claimName := PersistentVolumeClaimVolumeSource.ClaimName pvc in
      if negb (strings.Contains claimName "-") then v
      else
        let lastIndex := strings.LastIndex claimName "-" in
        let claimName :=
          (strings.slice_to claimName lastIndex ++ "-" ++ index)%string in
        Volume.set_VolumeSource v
          (VolumeSource.set_PersistentVolumeClaim (Volume.VolumeSource v)
             (Some (PersistentVolumeClaimVolumeSource.set_ClaimName
                      pvc claimName)))
  | None => v
  end.

Definition ModifyVolumeMount (podTemplate : PodTemplateSpec.t) (index : string)
  : PodTemplateSpec.t :=
  let spec := PodTemplateSpec.Spec podTemplate in
  if Z.of_nat (List.length (PodSpec.Volumes spec)) =? 0 then podTemplate
  else
    PodTemplateSpec.set_Spec podTemplate
      (PodSpec.set_Volumes spec
         (map (fun v => reindexVolume v index) (PodSpec.Volumes spec))).

(* ------------------------------------------------------------------ *)
(** ** SetClusterSpecForPod *)
(* ------------------------------------------------------------------ *)

(** [fmt.Errorf("%+v is not a type of ...", elasticJob)]: on this path
    [elasticJob] is the nil pointer of the failed assertion, which [%+v]
    prints as [<nil>]. *)
Definition notAType (kind : string) : error :=
  errorString ("<nil> is not a type of " ++ kind)%string.

(** "Set default value if minReplicas and maxReplicas are not set" *)
Definition resolveReplicas (elasticJob : ElasticJob.t) (desiredReplicas : int32)
  : int32 * int32 :=
  let minReplicas :=
    match ElasticJobSpec.MinReplicas (ElasticJob.Spec elasticJob) with
    | Some m => m
    | None => desiredReplicas
    end in
  let maxReplicas :=
    match ElasticJobSpec.MaxReplicas (ElasticJob.Spec elasticJob) with
    | Some m => m
    | None => desiredReplicas
    end in
  (minReplicas, maxReplicas).

(** the slice literal [launchDefaultArgs] *)
Definition launchDefaultArgs (elasticJob : ElasticJob.t)
    (minReplicas maxReplicas : int32) : list string :=
  [ "--rdzv_backend=etcd";
    ("--rdzv_endpoint="
       ++ ElasticJobSpec.RdzvEndpoint (ElasticJob.Spec elasticJob))%string;
    ("--rdzv_id=" ++ ElasticJob.Name elasticJob)%string;
    ("--nnodes=" ++ strconv.Itoa minReplicas ++ ":"
       ++ strconv.Itoa maxReplicas)%string ].

Section Configure.

(** The replica-count oracle, defined elsewhere in the package. *)
Variable computeDesiredReplicas : ElasticJob.t -> error + int32.

Definition SetClusterSpecForPod
    (job : any) (podTemplate : PodTemplateSpec.t) (index : string)
  : outcome (option error * PodTemplateSpec.t) :=
  match job with
  | ElasticJobPtr elasticJob =>
      match computeDesiredReplicas elasticJob with
      | inl err => Returned (Some err, podTemplate)
      | inr desiredReplicas =>
          let (minReplicas, maxReplicas) :=
            resolveReplicas elasticJob desiredReplicas in
          let launchDefaultArgs :=
            launchDefaultArgs elasticJob minReplicas maxReplicas in
          let spec := PodTemplateSpec.Spec podTemplate in
          match PodSpec.Containers spec with
          | [] => Panicked "index out of range [0] with length 0"
          | container :: sidecars =>
              let podTemplate :=
                PodTemplateSpec.set_Spec podTemplate
                  (PodSpec.set_Containers spec
                     (InsertTorchArgs container launchDefaultArgs
                        :: sidecars)) in
              Returned (None, ModifyVolumeMount podTemplate index)
          end
      end
  | _ => Returned (Some (notAType "ElasticJob"), podTemplate)
  end.

End Configure.

(* ------------------------------------------------------------------ *)
(** ** Pod lifecycle: CreatePod, DeletePod, GetPodsForJob *)
(* ------------------------------------------------------------------ *)

(** What an operation does to the outside world, in order. *)
Inductive Call :=
| ClientCreate (pod : Pod.t)
| ClientDelete (pod : Pod.t)
| ClientList (namespace : string) (labels : Labels)
| RecorderEventf (job : ElasticJob.t) (eventtype reason message : string)
| LogInfof (message : string).

Definition M (A : Type) : Type := list Call -> A * list Call.

Definition ret {A : Type} (a : A) : M A := fun trace => (a, trace).

Definition bind {A B : Type} (m : M A) (k : A -> M B) : M B :=
  fun trace => let (a, trace') := m trace in k a trace'.

Definition emit (c : Call) : M unit := fun trace => (tt, trace ++ [c]).

Notation "x <- m ;; k" := (bind m (fun x => k))
  (at level 61, m at next level, right associativity).
Notation "m ;;; k" := (bind m (fun _ => k))
  (at level 61, right associativity).

(** A nil-able slice: [None] is [nil]. *)
Definition slice (A : Type) : Type := option (list A).

Definition len {A : Type} (s : slice A) : nat :=
  match s with
  | None => O
  | Some l => List.length l
  end.

Definition elems {A : Type} (s : slice A) : list A :=
  match s with
  | None => []
  | Some l => l
  end.

(** The reconciler, as far as pod.go uses it: the embedded client with the
    answer of the object store to each request, and the label generator of
    the job controller. *)
Module ElasticJobReconciler.
Record t := mk {
  Create : Pod.t -> option error;
  Delete : Pod.t -> option error;
  List : string -> Labels -> error + slice Pod.t;
  GenLabels : string -> Labels
}.
End ElasticJobReconciler.

Definition EventTypeNormal : string := "Normal".
Definition EventTypeWarning : string := "Warning".
Definition FailedDeletePodReason : string := "FailedDeletePod".
Definition SuccessfulDeletePodReason : string := "SuccessfulDeletePod".

(** [meta.Accessor]: the object's metadata, or [errNotObject]. *)
Definition errNotObject : error :=
  errorString "object does not implement the Object interfaces".

Definition Accessor (obj : any) : error + ObjectMeta.t :=
  match obj with
  | ElasticJobPtr j => inr (ElasticJob.ObjectMeta j)
  | OtherObject m => inr m
  | NotObject => inl errNotObject
  end.

Definition CreatePod (r : ElasticJobReconciler.t) (job : any) (pod : Pod.t)
  : M (option error) :=
  match job with
  | ElasticJobPtr elasticJob =>
      emit (LogInfof ("Creating pod " ++ Pod.Namespace pod ++ "/"
                        ++ Pod.Name pod ++ ", Job name: "
                        ++ ElasticJob.GetName elasticJob ++ ".")%string) ;;;
      emit (ClientCreate pod) ;;;
      match ElasticJobReconciler.Create r pod with
      | Some err =>
          emit (LogInfof ("Error building a pod via Elastic operator: "
                            ++ Error err)%string) ;;;
          ret (Some err)
      | None => ret None
      end
  | _ => ret (Some (notAType "ElasticJob"))
  end.

Definition DeletePod (r : ElasticJobReconciler.t) (job : any) (pod : Pod.t)
  : M (option error) :=
  match job with
  | ElasticJobPtr elasticJob =>
      emit (LogInfof ("Deleting pod " ++ Pod.Namespace pod ++ "/"
                        ++ Pod.Name pod ++ ", Job name: "
                        ++ ElasticJob.GetName elasticJob)%string) ;;;
      emit (ClientDelete pod) ;;;
      match ElasticJobReconciler.Delete r pod with
      | Some err =>
          emit (RecorderEventf elasticJob EventTypeWarning
                  FailedDeletePodReason
                  ("Error deleting: " ++ Error err)%string) ;;;
          ret (Some err)
      | None =>
          emit (RecorderEventf elasticJob EventTypeNormal
                  SuccessfulDeletePodReason
                  ("Deleted pod: " ++ Pod.Name pod)%string) ;;;
          ret None
      end
  | _ => ret (Some (notAType "TorchElasticJob"))
  end.

(** [convertPodList]: a [nil] list gives [nil]; otherwise the loop appends
    a pointer to each element, in order, to an empty slice. *)
Definition convertPodList (list : slice Pod.t) : slice Pod.t :=
  match list with
  | None => None
  | Some items => Some (fold_left (fun ret pod => ret ++ [pod]) items [])
  end.

Definition GetPodsForJob (r : ElasticJobReconciler.t) (obj : any)
  : M (slice Pod.t * option error) :=
  match Accessor obj with
  | inl err => ret (None, Some err)
  | inr job =>
      let labels := ElasticJobReconciler.GenLabels r (ObjectMeta.Name job) in
      emit (ClientList (ObjectMeta.Namespace job) labels) ;;;
      match ElasticJobReconciler.List r (ObjectMeta.Namespace job) labels with
      | inl err => ret (None, Some err)
      | inr items => ret (convertPodList items, None)
      end
  end.

(* ------------------------------------------------------------------ *)
(** ** Vocabulary of the statements *)
(* ------------------------------------------------------------------ *)

(** The separator of a claim name and its ordinal. *)
Definition sep : ascii := "-"%char.

(** [occurs c s]: the byte [c] is one of the bytes of [s]. *)
Fixpoint occurs (c : ascii) (s : string) : bool :=
  match s with
  | EmptyString => false
  | String a s' => Ascii.eqb a c || occurs c s'
  end.

(** The volume [v] with the name of its claim, [pvc], replaced. *)
Definition withClaimName (v : Volume.t)
    (pvc : PersistentVolumeClaimVolumeSource.t) (name : string) : Volume.t :=
  {| Volume.Name := Volume.Name v;
     Volume.VolumeSource :=
       {| VolumeSource.HostPath :=
            VolumeSource.HostPath (Volume.VolumeSource v);
          VolumeSource.EmptyDir :=
            VolumeSource.EmptyDir (Volume.VolumeSource v);
          VolumeSource.PersistentVolumeClaim :=
            Some {| PersistentVolumeClaimVolumeSource.ClaimName := name;
                    PersistentVolumeClaimVolumeSource.ReadOnly :=
                      PersistentVolumeClaimVolumeSource.ReadOnly pvc |} |} |}.

(** An argument that is not a job of the expected kind. *)
Definition isElasticJob (job : any) : bool :=
  match job with
  | ElasticJobPtr _ => true
  | _ => false
  end.

(** The spec's [InvalidJobType]: the error of a failed type assertion. *)
Definition InvalidJobType (e : error) : Prop :=
  exists kind : string, e = notAType kind.

(** The calls issued against the object store. *)
Definition isStoreCall (c : Call) : bool :=
  match c with
  | ClientCreate _ | ClientDelete _ | ClientList _ _ => true
  | RecorderEventf _ _ _ _ | LogInfof _ => false
  end.

(** The events sent to the recorder. *)
Definition isEvent (c : Call) : bool :=
  match c with
  | RecorderEventf _ _ _ _ => true
  | _ => false
  end.

(* ================================================================== *)
(** * Properties *)
(* ================================================================== *)

(* ------------------------------------------------------------------ *)
(** ** Argument injection *)
(* ------------------------------------------------------------------ *)

Section ScanBack.

Lemma scanBack_range (args : list string) (n : nat) :
  -1 <= scanBack args n < Z.of_nat n.
Proof.
  induction n as [|i IH]; simpl.
  - lia.
  - destruct (String.eqb (nth i args "") sentinel); lia.
Qed.

(** Positions past the last sentinel are skipped by the scan. *)
Lemma scanBack_skip_tail (pre post : list string) (k : nat) :
  ~ In sentinel post ->
  (k <= List.length post)%nat ->
  scanBack (pre ++ post) (List.length pre + k)
  = scanBack (pre ++ post) (List.length pre).
Proof.
  intros Habsent.
  induction k as [|k IH]; intros Hk.
  - now rewrite Nat.add_0_r.
  - rewrite Nat.add_succ_r. simpl.
    rewrite app_nth2_plus.
    destruct (String.eqb (nth k post "") sentinel) eqn:E.
    + apply String.eqb_eq in E. exfalso. apply Habsent.
      rewrite <- E. apply nth_In. lia.
    + apply IH. lia.
Qed.

Lemma scanBack_absent (args : list string) :
  ~ In sentinel args -> scanBack args (List.length args) = -1.
Proof.
  intros Habsent.
  apply (scanBack_skip_tail [] args (List.length args) Habsent).
  lia.
Qed.

Lemma scanBack_last (pre post : list string) :
  ~ In sentinel post ->
  scanBack (pre ++ sentinel :: post)
    (List.length (pre ++ sentinel :: post))
  = Z.of_nat (List.length pre).
Proof.
  intros Habsent.
  assert (E : pre ++ sentinel :: post = (pre ++ [sentinel]) ++ post)
    by now rewrite <- app_assoc.
  rewrite E, length_app.
  rewrite scanBack_skip_tail by (auto; lia).
  rewrite <- E, length_app, Nat.add_1_r. simpl.
  now rewrite nth_middle, String.eqb_refl.
Qed.

End ScanBack.

Lemma insertIndex_bounds (args : list string) :
  0 <= insertIndex args <= Z.of_nat (List.length args).
Proof.
  unfold insertIndex.
  pose proof (scanBack_range args (List.length args)). lia.
Qed.

Lemma insertIndex_absent (args : list string) :
  ~ In sentinel args -> insertIndex args = 0.
Proof.
  intros H. unfold insertIndex. now rewrite scanBack_absent.
Qed.

Lemma insertIndex_last (pre post : list string) :
  ~ In sentinel post ->
  insertIndex (pre ++ sentinel :: post) = Z.of_nat (S (List.length pre)).
Proof.
  intros H. unfold insertIndex. rewrite scanBack_last by assumption. lia.
Qed.

(** The list with a sentinel at position [i] and none after it, split
    around that position. *)
Lemma split_at_last_sentinel (args : list string) (i : nat) :
  nth_error args i = Some sentinel ->
  (forall j, (i < j)%nat -> nth_error args j <> Some sentinel) ->
  args = firstn i args ++ sentinel :: skipn (S i) args
  /\ ~ In sentinel (skipn (S i) args)
  /\ List.length (firstn i args) = i.
Proof.
  intros Hi Hlast.
  assert (Hlt : (i < List.length args)%nat).
  { apply nth_error_Some. congruence. }
  repeat split.
  - rewrite <- (firstn_skipn i args) at 1. f_equal.
    clear Hlast Hlt. revert i Hi.
    induction args as [|a args IH]; intros [|i] Hi; simpl in *;
      try discriminate.
    + now injection Hi as ->.
    + now apply IH.
  - intros Hin. apply In_nth_error in Hin. destruct Hin as [n Hn].
    rewrite nth_error_skipn in Hn.
    apply (Hlast (S i + n)%nat); [lia | assumption].
  - apply firstn_length_le. lia.
Qed.

Lemma insertAt_length (args block : list string) (idx : Z) :
  List.length (insertAt args block idx)
  = (List.length args + List.length block)%nat.
Proof.
  unfold insertAt.
  rewrite !length_app.
  rewrite <- (firstn_skipn (Z.to_nat idx) args) at 3.
  rewrite length_app. lia.
Qed.

Lemma insertAt_Permutation (args block : list string) (idx : Z) :
  Permutation (insertAt args block idx) (block ++ args).
Proof.
  unfold insertAt.
  rewrite <- (firstn_skipn (Z.to_nat idx) args) at 3.
  apply Permutation_app_swap_app.
Qed.

Lemma InsertTorchArgs_Args (c : Container.t) (block : list string) :
  Container.Args (InsertTorchArgs c block)
  = insertAt (Container.Args c) block (insertIndex (Container.Args c)).
Proof. reflexivity. Qed.

(** The two cases of [TestInsertTorchArgs] in pod_test.go. *)
Example TestInsertTorchArgs_no_sentinel :
  Container.Args
    (InsertTorchArgs
       (Container.mk "" "" [] ["run.py"; "--arg1"; "val1"] "")
       ["--rdvz"; "etcd"])
  = ["--rdvz"; "etcd"; "run.py"; "--arg1"; "val1"].
Proof. reflexivity. Qed.

Example TestInsertTorchArgs_sentinel :
  Container.Args
    (InsertTorchArgs
       (Container.mk "" "" []
          ["python"; "run.py"; "python"; "-m";
           "torchelastic.distributed.launch"; "script.py"; "--arg1"; "val1"] "")
       ["--rdvz"; "etcd"])
  = ["python"; "run.py"; "python"; "-m"; "torchelastic.distributed.launch";
     "--rdvz"; "etcd"; "script.py"; "--arg1"; "val1"].
Proof. reflexivity. Qed.

(** C2. Injection puts the block right after the last occurrence of the
    sentinel ["torchelastic.distributed.launch"] (position [i + 1] when the
    last occurrence is at position [i]), and at the front when the sentinel
    does not occur; in every case the result is the argument list cut in
    two at the insertion point with the block, as supplied, in between, so
    the elements of both keep their relative order. *)
Theorem InsertTorchArgs_insertion_point :
  forall (c : Container.t) (block : list string),
    let args := Container.Args c in
    let res := Container.Args (InsertTorchArgs c block) in
    (forall i : nat,
        nth_error args i = Some sentinel ->
        (forall j, (i < j)%nat -> nth_error args j <> Some sentinel) ->
        res = firstn (i + 1) args ++ block ++ skipn (i + 1) args)
    /\ (~ In sentinel args -> res = block ++ args)
    /\ (exists k : nat,
           (k <= List.length args)%nat
           /\ res = firstn k args ++ block ++ skipn k args).
Proof.
  intros c block args res. subst res. rewrite InsertTorchArgs_Args.
  fold args. repeat split.
  - intros i Hi Hlast.
    destruct (split_at_last_sentinel args i Hi Hlast)
      as (Hsplit & Hpost & Hlen).
    unfold insertAt.
    replace (insertIndex args) with (Z.of_nat (i + 1)).
    + now rewrite Nat2Z.id.
    + rewrite Hsplit, insertIndex_last by assumption.
      rewrite Hlen. f_equal. lia.
  - intros Habsent. unfold insertAt.
    now rewrite insertIndex_absent.
  - exists (Z.to_nat (insertIndex args)). split.
    + pose proof (insertIndex_bounds args). lia.
    + reflexivity.
Qed.

Lemma InsertTorchArgs_insertion_point_witness :
  let c := Container.mk "main" "img" []
             ["python"; "-m"; "torchelastic.distributed.launch"; "train.py";
              "torchelastic.distributed.launch"; "x"] "" in
  let c' := Container.mk "main" "img" [] ["run.py"; "--arg1"; "val1"] "" in
  Container.Args (InsertTorchArgs c ["--rdvz"; "etcd"])
  = ["python"; "-m"; "torchelastic.distributed.launch"; "train.py";
     "torchelastic.distributed.launch"; "--rdvz"; "etcd"; "x"]
  /\ Container.Args (InsertTorchArgs c' ["--rdvz"; "etcd"])
     = ["--rdvz"; "etcd"; "run.py"; "--arg1"; "val1"].
Proof.
  intros c c'. split.
  - apply (proj1 (InsertTorchArgs_insertion_point c ["--rdvz"; "etcd"]) 4%nat).
    + reflexivity.
    + intros [|[|[|[|[|[|[|j]]]]]]] Hj; simpl; try lia; try discriminate;
        destruct j; discriminate.
  - apply (proj1 (proj2 (InsertTorchArgs_insertion_point c'
                           ["--rdvz"; "etcd"]))).
    simpl. intros [H|[H|[H|[]]]]; discriminate.
Defined.

(** C5. Injection is not idempotent: with a non-empty block, injecting
    twice gives a list that holds the block's elements twice (it is a
    rearrangement of block, block and the original arguments, so its length
    is the original length plus twice the block's), and that differs from
    the result of injecting once. *)
Theorem InsertTorchArgs_not_idempotent :
  forall (c : Container.t) (block : list string),
    block <> [] ->
    let once := InsertTorchArgs c block in
    let twice := InsertTorchArgs once block in
    List.length (Container.Args twice)
    = (List.length (Container.Args c) + 2 * List.length block)%nat
    /\ Permutation (Container.Args twice) (block ++ block ++ Container.Args c)
    /\ (forall x : string,
           count_occ string_dec (Container.Args twice) x
           = (count_occ string_dec (Container.Args c) x
              + 2 * count_occ string_dec block x)%nat)
    /\ Container.Args twice <> Container.Args once
    /\ twice <> once.
Proof.
  intros c block Hne once twice.
  assert (Hperm : Permutation (Container.Args twice)
                    (block ++ block ++ Container.Args c)).
  { subst twice once. rewrite !InsertTorchArgs_Args.
    etransitivity; [apply insertAt_Permutation|].
    apply Permutation_app_head, insertAt_Permutation. }
  assert (Hlen : List.length (Container.Args twice)
                 = (List.length (Container.Args c) + 2 * List.length block)%nat).
  { rewrite (Permutation_length Hperm), !length_app. lia. }
  assert (Hargs : Container.Args twice <> Container.Args once).
  { intros Heq. apply (f_equal (@List.length string)) in Heq.
    rewrite Hlen in Heq. subst once.
    rewrite InsertTorchArgs_Args, insertAt_length in Heq.
    destruct block; [congruence | simpl in Heq; lia]. }
  repeat split; auto.
  - intros x.
    rewrite (proj1 (Permutation_count_occ string_dec _ _) Hperm x).
    rewrite !count_occ_app. lia.
  - intros Heq. apply Hargs. now rewrite Heq.
Qed.

Lemma InsertTorchArgs_not_idempotent_witness :
  let c := Container.mk "main" "img" [] ["run.py"; "--arg1"; "val1"] "" in
  let block := ["--rdvz"; "etcd"] in
  block <> []
  /\ List.length
       (Container.Args (InsertTorchArgs (InsertTorchArgs c block) block))
     = 7%nat
  /\ InsertTorchArgs (InsertTorchArgs c block) block <> InsertTorchArgs c block.
Proof.
  intros c block.
  assert (Hne : block <> []) by discriminate.
  pose proof (InsertTorchArgs_not_idempotent c block Hne)
    as (Hlen & _ & _ & _ & Hdiff).
  split; [exact Hne | split; [exact Hlen | exact Hdiff]].
Defined.

(* ------------------------------------------------------------------ *)
(** ** Claim reindexing *)
(* ------------------------------------------------------------------ *)

Section Separator.

Lemma prefix_sep (a : ascii) (s : string) :
  prefix "-" (String a s) = Ascii.eqb a sep.
Proof.
  change (prefix "-" (String a s))
    with (if ascii_dec "-" a then prefix "" s else false).
  destruct (ascii_dec "-" a) as [<-|Hne].
  - now destruct s.
  - symmetry. apply Ascii.eqb_neq. unfold sep. congruence.
Qed.

Lemma Index_from_sep (s : string) (i : Z) :
  0 <= i ->
  if occurs sep s then i <= strings.Index_from "-" s i
  else strings.Index_from "-" s i = -1.
Proof.
  revert i. induction s as [|a s IH]; intros i Hi.
  - reflexivity.
  - cbn [strings.Index_from occurs]. rewrite prefix_sep.
    destruct (Ascii.eqb a sep); simpl.
    + lia.
    + specialize (IH (i + 1) ltac:(lia)).
      destruct (occurs sep s); lia.
Qed.

Lemma Contains_sep (s : string) : strings.Contains s "-" = occurs sep s.
Proof.
  unfold strings.Contains, strings.Index.
  pose proof (Index_from_sep s 0 ltac:(lia)) as H.
  destruct (occurs sep s).
  - now apply Z.leb_le.
  - rewrite H. reflexivity.
Qed.

Lemma LastIndex_from_absent (s : string) (i : Z) :
  occurs sep s = false -> strings.LastIndex_from "-" s i = -1.
Proof.
  revert i. induction s as [|a s IH]; intros i Hs.
  - reflexivity.
  - cbn [strings.LastIndex_from occurs] in *. rewrite prefix_sep.
    apply orb_false_iff in Hs. destruct Hs as [Ha Hs].
    now rewrite (IH _ Hs), Ha.
Qed.

Lemma LastIndex_from_last (pre suf : string) (i : Z) :
  0 <= i ->
  occurs sep suf = false ->
  strings.LastIndex_from "-" (pre ++ String sep suf) i
  = i + Z.of_nat (String.length pre).
Proof.
  intros Hi Hsuf. revert i Hi.
  induction pre as [|a pre IH]; intros i Hi.
  - cbn [append strings.LastIndex_from String.length].
    rewrite (LastIndex_from_absent _ _ Hsuf), prefix_sep.
    rewrite Ascii.eqb_refl. simpl. lia.
  - cbn [append strings.LastIndex_from String.length].
    rewrite IH by lia.
    replace (0 <=? i + 1 + Z.of_nat (String.length pre)) with true
      by (symmetry; apply Z.leb_le; lia).
    lia.
Qed.

Lemma slice_to_prefix (pre rest : string) :
  strings.slice_to (pre ++ rest) (Z.of_nat (String.length pre)) = pre.
Proof.
  unfold strings.slice_to. rewrite Nat2Z.id.
  induction pre as [|a pre IH]; simpl.
  - now destruct rest.
  - now rewrite IH.
Qed.

Lemma length_append (s1 s2 : string) :
  String.length (s1 ++ s2) = (String.length s1 + String.length s2)%nat.
Proof. induction s1 as [|a s1 IH]; simpl; congruence. Qed.

(** A name with a separator has a last one. *)
Lemma last_sep_split (s : string) :
  occurs sep s = true ->
  exists pre suf : string,
    s = (pre ++ String sep suf)%string /\ occurs sep suf = false.
Proof.
  induction s as [|a s IH]; simpl; intros Hs.
  - discriminate.
  - destruct (occurs sep s) eqn:Es.
    + destruct (IH eq_refl) as (pre & suf & -> & Hsuf).
      now exists (String a pre), suf.
    + rewrite orb_false_r in Hs. apply Ascii.eqb_eq in Hs. subst a.
      now exists EmptyString, s.
Qed.

(** [lastIndex] is a position of the name: [claimName[:lastIndex]] is
    within bounds. *)
Lemma LastIndex_sep_bounds (s : string) :
  strings.Contains s "-" = true ->
  0 <= strings.LastIndex s "-" < Z.of_nat (String.length s).
Proof.
  rewrite Contains_sep. intros Hs.
  destruct (last_sep_split s Hs) as (pre & suf & -> & Hsuf).
  unfold strings.LastIndex.
  rewrite LastIndex_from_last by (assumption || lia).
  rewrite length_append. simpl. lia.
Qed.

End Separator.

Lemma reindexVolume_no_claim (v : Volume.t) (index : string) :
  VolumeSource.PersistentVolumeClaim (Volume.VolumeSource v) = None ->
  reindexVolume v index = v.
Proof. intros H. unfold reindexVolume. now rewrite H. Qed.

Lemma reindexVolume_no_sep (v : Volume.t) (index : string)
    (pvc : PersistentVolumeClaimVolumeSource.t) :
  VolumeSource.PersistentVolumeClaim (Volume.VolumeSource v) = Some pvc ->
  occurs sep (PersistentVolumeClaimVolumeSource.ClaimName pvc) = false ->
  reindexVolume v index = v.
Proof.
  intros H Hs. unfold reindexVolume. now rewrite H, Contains_sep, Hs.
Qed.

Lemma reindexVolume_last_sep (v : Volume.t) (index : string)
    (pvc : PersistentVolumeClaimVolumeSource.t) (pre suf : string) :
  VolumeSource.PersistentVolumeClaim (Volume.VolumeSource v) = Some pvc ->
  PersistentVolumeClaimVolumeSource.ClaimName pvc
  = (pre ++ String sep suf)%string ->
  occurs sep suf = false ->
  reindexVolume v index = withClaimName v pvc (pre ++ String sep index)%string.
Proof.
  intros H Hname Hsuf. unfold reindexVolume.
  rewrite H, Contains_sep, Hname.
  replace (occurs sep (pre ++ String sep suf)) with true.
  - unfold strings.LastIndex.
    rewrite LastIndex_from_last by (assumption || lia).
    rewrite Z.add_0_l, slice_to_prefix. reflexivity.
  - symmetry. clear. induction pre as [|a pre IH]; cbn [append occurs].
    + now rewrite Ascii.eqb_refl.
    + rewrite IH. apply orb_true_r.
Qed.

Lemma Forall2_map_r {A : Type} (R : A -> A -> Prop) (f : A -> A) (l : list A) :
  (forall x, R x (f x)) -> Forall2 R l (map f l).
Proof. intros H. induction l; simpl; constructor; auto. Qed.

(** C4. Reindexing goes through the volumes position by position. A volume
    that is not backed by a persistent volume claim is not modified. A
    claim whose name holds no separator ['-'] is not modified. A claim
    whose name is [pre ++ "-" ++ suf], with no separator in [suf] (so that
    this is its last separator, and every name with a separator has this
    form), gets the name [pre ++ "-" ++ index], nothing else of the volume
    changing. The rest of the template is as it was. *)
Theorem ModifyVolumeMount_reindexes_claims :
  forall (podTemplate : PodTemplateSpec.t) (index : string),
    let podTemplate' := ModifyVolumeMount podTemplate index in
    PodTemplateSpec.ObjectMeta podTemplate'
    = PodTemplateSpec.ObjectMeta podTemplate
    /\ PodSpec.Containers (PodTemplateSpec.Spec podTemplate')
       = PodSpec.Containers (PodTemplateSpec.Spec podTemplate)
    /\ PodSpec.RestartPolicy (PodTemplateSpec.Spec podTemplate')
       = PodSpec.RestartPolicy (PodTemplateSpec.Spec podTemplate)
    /\ Forall2
         (fun v v' : Volume.t =>
            match VolumeSource.PersistentVolumeClaim (Volume.VolumeSource v) with
            | None => v' = v
            | Some pvc =>
                let claimName :=
                  PersistentVolumeClaimVolumeSource.ClaimName pvc in
                (occurs sep claimName = false -> v' = v)
                /\ (forall pre suf : string,
                       claimName = (pre ++ String sep suf)%string ->
                       occurs sep suf = false ->
                       v' = withClaimName v pvc
                              (pre ++ String sep index)%string)
                /\ (occurs sep claimName = true ->
                    exists pre suf : string,
                      claimName = (pre ++ String sep suf)%string
                      /\ occurs sep suf = false)
            end)
         (PodSpec.Volumes (PodTemplateSpec.Spec podTemplate))
         (PodSpec.Volumes (PodTemplateSpec.Spec podTemplate')).
Proof.
  intros podTemplate index podTemplate'.
  assert (Hv : forall v : Volume.t,
             match VolumeSource.PersistentVolumeClaim (Volume.VolumeSource v) with
             | None => reindexVolume v index = v
             | Some pvc =>
                 let claimName :=
                   PersistentVolumeClaimVolumeSource.ClaimName pvc in
                 (occurs sep claimName = false -> reindexVolume v index = v)
                 /\ (forall pre suf : string,
                        claimName = (pre ++ String sep suf)%string ->
                        occurs sep suf = false ->
                        reindexVolume v index
                        = withClaimName v pvc (pre ++ String sep index)%string)
                 /\ (occurs sep claimName = true ->
                     exists pre suf : string,
                       claimName = (pre ++ String sep suf)%string
                       /\ occurs sep suf = false)
             end).
  { intros v.
    destruct (VolumeSource.PersistentVolumeClaim (Volume.VolumeSource v))
      as [pvc|] eqn:Hpvc.
    - repeat split.
      + now apply reindexVolume_no_sep.
      + intros pre suf. now apply reindexVolume_last_sep.
      + apply last_sep_split.
    - now apply reindexVolume_no_claim. }
  subst podTemplate'. unfold ModifyVolumeMount.
  destruct (PodSpec.Volumes (PodTemplateSpec.Spec podTemplate))
    as [|v vs] eqn:Hvs.
  - simpl. rewrite Hvs. repeat split; constructor.
  - change (Z.of_nat (List.length (v :: vs)) =? 0) with false.
    cbn [PodTemplateSpec.set_Spec PodSpec.set_Volumes PodTemplateSpec.Spec
         PodTemplateSpec.ObjectMeta PodSpec.Containers PodSpec.Volumes
         PodSpec.RestartPolicy].
    repeat split.
    now apply (Forall2_map_r _ (fun v => reindexVolume v index)).
Qed.

Lemma ModifyVolumeMount_reindexes_claims_witness :
  let claim name :=
    Volume.mk "data"
      (VolumeSource.mk None None
         (Some (PersistentVolumeClaimVolumeSource.mk name true))) in
  let scratch :=
    Volume.mk "scratch" (VolumeSource.mk None (Some "Memory") None) in
  let podTemplate :=
    PodTemplateSpec.mk (ObjectMeta.mk "worker" "default" [])
      (PodSpec.mk [claim "model-data-0"; claim "shared"; scratch] [] "Never") in
  occurs sep "0" = false /\ occurs sep "shared" = false
  /\ PodSpec.Volumes (PodTemplateSpec.Spec (ModifyVolumeMount podTemplate "3"))
     = [claim "model-data-3"; claim "shared"; scratch].
Proof.
  intros claim scratch podTemplate.
  pose proof (ModifyVolumeMount_reindexes_claims podTemplate "3")
    as (_ & _ & _ & H).
  split; [reflexivity | split; [reflexivity |]].
  remember (PodSpec.Volumes
              (PodTemplateSpec.Spec (ModifyVolumeMount podTemplate "3"))) as vs'.
  clear Heqvs'.
  inversion H as [|v1 v1' l1 l1' H1 T1]; subst; clear H.
  inversion T1 as [|v2 v2' l2 l2' H2 T2]; subst; clear T1.
  inversion T2 as [|v3 v3' l3 l3' H3 T3]; subst; clear T2.
  inversion T3; subst; clear T3.
  cbn in H1, H2, H3.
  destruct H1 as (_ & H1 & _). destruct H2 as (H2 & _).
  rewrite (H1 "model-data" "0" eq_refl eq_refl), (H2 eq_refl), H3.
  reflexivity.
Defined.

(* ------------------------------------------------------------------ *)
(** ** Template configuration *)
(* ------------------------------------------------------------------ *)

Section ConfigureProperties.

Variable computeDesiredReplicas : ElasticJob.t -> error + int32.

(** The path through the function when nothing fails. *)
Lemma SetClusterSpecForPod_success
    (j : ElasticJob.t) (d : int32) (podTemplate : PodTemplateSpec.t)
    (index : string) (c : Container.t) (cs : list Container.t) :
  computeDesiredReplicas j = inr d ->
  PodSpec.Containers (PodTemplateSpec.Spec podTemplate) = c :: cs ->
  SetClusterSpecForPod computeDesiredReplicas (ElasticJobPtr j) podTemplate index
  = Returned
      (None,
       ModifyVolumeMount
         (PodTemplateSpec.set_Spec podTemplate
            (PodSpec.set_Containers (PodTemplateSpec.Spec podTemplate)
               (InsertTorchArgs c
                  (launchDefaultArgs j (fst (resolveReplicas j d))
                     (snd (resolveReplicas j d)))
                  :: cs)))
         index).
Proof.
  intros Hd Hcs. unfold SetClusterSpecForPod.
  rewrite Hd. destruct (resolveReplicas j d) as [lo hi].
  rewrite Hcs. reflexivity.
Qed.

Lemma ModifyVolumeMount_Containers
    (podTemplate : PodTemplateSpec.t) (index : string) :
  PodSpec.Containers (PodTemplateSpec.Spec (ModifyVolumeMount podTemplate index))
  = PodSpec.Containers (PodTemplateSpec.Spec podTemplate).
Proof.
  unfold ModifyVolumeMount.
  destruct (Z.of_nat _ =? 0); reflexivity.
Qed.

Lemma SetClusterSpecForPod_Containers
    (j : ElasticJob.t) (d : int32) (podTemplate : PodTemplateSpec.t)
    (index : string) (c : Container.t) (cs : list Container.t) :
  computeDesiredReplicas j = inr d ->
  PodSpec.Containers (PodTemplateSpec.Spec podTemplate) = c :: cs ->
  exists podTemplate' : PodTemplateSpec.t,
    SetClusterSpecForPod computeDesiredReplicas (ElasticJobPtr j)
      podTemplate index
    = Returned (None, podTemplate')
    /\ PodSpec.Containers (PodTemplateSpec.Spec podTemplate')
       = InsertTorchArgs c
           (launchDefaultArgs j (fst (resolveReplicas j d))
              (snd (resolveReplicas j d)))
           :: cs.
Proof.
  intros Hd Hcs. eexists. split.
  - exact (SetClusterSpecForPod_success j d podTemplate index c cs Hd Hcs).
  - now rewrite ModifyVolumeMount_Containers.
Qed.

Lemma In_insertAt (args block : list string) (idx : Z) (x : string) :
  In x block -> In x (insertAt args block idx).
Proof.
  intros H. unfold insertAt. apply in_or_app. right.
  apply in_or_app. now left.
Qed.

(** C3. When the oracle answers [d], the resolved minimum is the job's
    explicit [MinReplicas] when set and [d] otherwise, the resolved
    maximum is the explicit [MaxReplicas] when set and [d] otherwise, so
    a job with neither bound resolves to [(d, d)]; and this pair is the
    one [SetClusterSpecForPod] writes into the [--nnodes=min:max]
    argument of the main container. *)
Theorem replica_range_resolution :
  forall (j : ElasticJob.t) (d : int32),
    computeDesiredReplicas j = inr d ->
    let spec := ElasticJob.Spec j in
    let minReplicas := fst (resolveReplicas j d) in
    let maxReplicas := snd (resolveReplicas j d) in
    (forall m, ElasticJobSpec.MinReplicas spec = Some m -> minReplicas = m)
    /\ (ElasticJobSpec.MinReplicas spec = None -> minReplicas = d)
    /\ (forall m, ElasticJobSpec.MaxReplicas spec = Some m -> maxReplicas = m)
    /\ (ElasticJobSpec.MaxReplicas spec = None -> maxReplicas = d)
    /\ (ElasticJobSpec.MinReplicas spec = None ->
        ElasticJobSpec.MaxReplicas spec = None ->
        resolveReplicas j d = (d, d))
    /\ (forall (podTemplate : PodTemplateSpec.t) (index : string)
               (c : Container.t) (cs : list Container.t),
           PodSpec.Containers (PodTemplateSpec.Spec podTemplate) = c :: cs ->
           exists (podTemplate' : PodTemplateSpec.t) (c' : Container.t),
             SetClusterSpecForPod computeDesiredReplicas (ElasticJobPtr j)
      podTemplate index
             = Returned (None, podTemplate')
             /\ PodSpec.Containers (PodTemplateSpec.Spec podTemplate')
                = c' :: cs
             /\ In ("--nnodes=" ++ strconv.Itoa minReplicas ++ ":"
                      ++ strconv.Itoa maxReplicas)%string
                   (Container.Args c')).
Proof.
  intros j d Hd spec minReplicas maxReplicas.
  subst minReplicas maxReplicas spec. unfold resolveReplicas at 1 2 3 4 5.
  cbn [fst snd].
  repeat split.
  - now intros m ->.
  - now intros ->.
  - now intros m ->.
  - now intros ->.
  - now intros -> ->.
  - intros podTemplate index c cs Hcs.
    destruct (SetClusterSpecForPod_Containers j d podTemplate index c cs Hd Hcs)
      as (podTemplate' & Hret & Hcs').
    eexists podTemplate', _. repeat split; [exact Hret | exact Hcs' |].
    rewrite InsertTorchArgs_Args. apply In_insertAt.
    unfold launchDefaultArgs. simpl. auto.
Qed.

(** C6. For a job of the expected kind with a successful oracle, the
    launch block is the four strings [--rdzv_backend=etcd],
    [--rdzv_endpoint=] with the job's rendezvous endpoint, [--rdzv_id=]
    with the job's name and [--nnodes=] with the resolved minimum, a
    colon and the resolved maximum in decimal, in this order, and it is
    this block that is injected into the main container. *)
Theorem launch_block_built :
  forall (j : ElasticJob.t) (d : int32) (podTemplate : PodTemplateSpec.t)
         (index : string) (c : Container.t) (cs : list Container.t),
    computeDesiredReplicas j = inr d ->
    PodSpec.Containers (PodTemplateSpec.Spec podTemplate) = c :: cs ->
    let minReplicas := fst (resolveReplicas j d) in
    let maxReplicas := snd (resolveReplicas j d) in
    let block :=
      [ "--rdzv_backend=etcd";
        ("--rdzv_endpoint="
           ++ ElasticJobSpec.RdzvEndpoint (ElasticJob.Spec j))%string;
        ("--rdzv_id=" ++ ObjectMeta.Name (ElasticJob.ObjectMeta j))%string;
        ("--nnodes=" ++ strconv.Itoa minReplicas ++ ":"
           ++ strconv.Itoa maxReplicas)%string ] in
    launchDefaultArgs j minReplicas maxReplicas = block
    /\ exists podTemplate' : PodTemplateSpec.t,
         SetClusterSpecForPod computeDesiredReplicas (ElasticJobPtr j)
      podTemplate index
         = Returned (None, podTemplate')
         /\ PodSpec.Containers (PodTemplateSpec.Spec podTemplate')
            = InsertTorchArgs c block :: cs.
Proof.
  intros j d podTemplate index c cs Hd Hcs minReplicas maxReplicas block.
  split; [reflexivity |].
  apply (SetClusterSpecForPod_Containers j d podTemplate index c cs Hd Hcs).
Qed.

(** C7. A successful call touches only the argument list of the first
    container: the sidecars (positions 1 and up) are the ones of the
    supplied template, and the first container keeps its name, image,
    command and working directory. *)
Theorem sidecars_untouched :
  forall (job : any) (podTemplate podTemplate' : PodTemplateSpec.t)
         (index : string) (c : Container.t) (cs : list Container.t),
    SetClusterSpecForPod computeDesiredReplicas job podTemplate index
    = Returned (None, podTemplate') ->
    PodSpec.Containers (PodTemplateSpec.Spec podTemplate) = c :: cs ->
    exists c' : Container.t,
      PodSpec.Containers (PodTemplateSpec.Spec podTemplate') = c' :: cs
      /\ (forall k : nat,
             (1 <= k)%nat ->
             nth_error (PodSpec.Containers (PodTemplateSpec.Spec podTemplate')) k
             = nth_error (PodSpec.Containers (PodTemplateSpec.Spec podTemplate)) k)
      /\ Container.Name c' = Container.Name c
      /\ Container.Image c' = Container.Image c
      /\ Container.Command c' = Container.Command c
      /\ Container.WorkingDir c' = Container.WorkingDir c
      /\ c' = Container.set_Args c (Container.Args c').
Proof.
  intros job podTemplate podTemplate' index c cs Hret Hcs.
  destruct job as [j| |]; try discriminate Hret.
  destruct (computeDesiredReplicas j) as [err|d] eqn:Hd.
  - unfold SetClusterSpecForPod in Hret. rewrite Hd in Hret.
    discriminate.
  - destruct (SetClusterSpecForPod_Containers j d podTemplate index c cs Hd Hcs)
      as (t' & Hret' & Hcs').
    rewrite Hret in Hret'. injection Hret' as <-.
    eexists. split; [exact Hcs' |].
    rewrite Hcs, Hcs'. repeat split.
    intros [|k] Hk; [lia | reflexivity].
Qed.

(** C9. The first container is read without a guard: with a non-empty
    container list no call panics, whatever the job, and for a job of the
    expected kind with a successful oracle the call returns without
    error; with an empty container list such a call panics on the index
    expression [Containers[0]]. *)
Theorem main_container_access :
  forall (podTemplate : PodTemplateSpec.t) (index : string),
    (PodSpec.Containers (PodTemplateSpec.Spec podTemplate) <> [] ->
     (forall (job : any) (msg : string),
         SetClusterSpecForPod computeDesiredReplicas job podTemplate index
         <> Panicked msg)
     /\ (forall (j : ElasticJob.t) (d : int32),
            computeDesiredReplicas j = inr d ->
            exists podTemplate' : PodTemplateSpec.t,
              SetClusterSpecForPod computeDesiredReplicas (ElasticJobPtr j)
      podTemplate index
              = Returned (None, podTemplate')))
    /\ (PodSpec.Containers (PodTemplateSpec.Spec podTemplate) = [] ->
        forall (j : ElasticJob.t) (d : int32),
          computeDesiredReplicas j = inr d ->
          SetClusterSpecForPod computeDesiredReplicas (ElasticJobPtr j)
      podTemplate index
          = Panicked "index out of range [0] with length 0").
Proof.
  intros podTemplate index. split.
  - intros Hne.
    destruct (PodSpec.Containers (PodTemplateSpec.Spec podTemplate))
      as [|c cs] eqn:Hcs; [congruence |].
    split.
    + intros [j| |] msg; try discriminate.
      unfold SetClusterSpecForPod.
      destruct (computeDesiredReplicas j) as [err|d]; [discriminate |].
      destruct (resolveReplicas j d). rewrite Hcs. discriminate.
    + intros j d Hd. eexists.
      now apply (SetClusterSpecForPod_success j d podTemplate index c cs).
  - intros Hnil j d Hd. unfold SetClusterSpecForPod.
    rewrite Hd. destruct (resolveReplicas j d). now rewrite Hnil.
Qed.

(** C10. When the oracle fails for a job of the expected kind, the call
    returns the oracle's error itself together with the template exactly
    as supplied: no argument is injected and no claim is renamed. *)
Theorem oracle_failure_atomic :
  forall (j : ElasticJob.t) (err : error)
         (podTemplate : PodTemplateSpec.t) (index : string),
    computeDesiredReplicas j = inl err ->
    SetClusterSpecForPod computeDesiredReplicas (ElasticJobPtr j)
      podTemplate index
    = Returned (Some err, podTemplate).
Proof.
  intros j err podTemplate index Herr.
  unfold SetClusterSpecForPod. now rewrite Herr.
Qed.

End ConfigureProperties.

Lemma replica_range_resolution_witness :
  let oracle : ElasticJob.t -> error + int32 := fun _ => inr 4 in
  let j := ElasticJob.mk (ObjectMeta.mk "imagenet" "elastic-job" [])
             (ElasticJobSpec.mk "etcd-service:2379" (Some 2) None) in
  oracle j = inr 4
  /\ fst (resolveReplicas j 4) = 2
  /\ snd (resolveReplicas j 4) = 4.
Proof.
  intros oracle j.
  pose proof (replica_range_resolution oracle j 4 eq_refl)
    as (Hmin & _ & _ & Hmax & _).
  split; [reflexivity | split].
  - apply (Hmin 2). reflexivity.
  - apply Hmax. reflexivity.
Defined.

Lemma launch_block_built_witness :
  let oracle : ElasticJob.t -> error + int32 := fun _ => inr 4 in
  let j := ElasticJob.mk (ObjectMeta.mk "imagenet" "elastic-job" [])
             (ElasticJobSpec.mk "etcd-service:2379" (Some 2) None) in
  let c := Container.mk "worker" "torchelastic/examples" ["python"]
             ["-m"; "torchelastic.distributed.launch"; "main.py"] "" in
  let sidecar := Container.mk "logs" "busybox" ["tail"] ["-f"] "/var/log" in
  let podTemplate :=
    PodTemplateSpec.mk (ObjectMeta.mk "" "" [])
      (PodSpec.mk [] [c; sidecar] "ExitCode") in
  exists podTemplate' : PodTemplateSpec.t,
    SetClusterSpecForPod oracle (ElasticJobPtr j) podTemplate "0"
    = Returned (None, podTemplate')
    /\ PodSpec.Containers (PodTemplateSpec.Spec podTemplate')
       = [ Container.mk "worker" "torchelastic/examples" ["python"]
             ["-m"; "torchelastic.distributed.launch";
              "--rdzv_backend=etcd"; "--rdzv_endpoint=etcd-service:2379";
              "--rdzv_id=imagenet"; "--nnodes=2:4"; "main.py"] "";
           sidecar ].
Proof.
  intros oracle j c sidecar podTemplate.
  exact (proj2 (launch_block_built oracle j 4 podTemplate "0" c [sidecar]
                  eq_refl eq_refl)).
Defined.

Lemma sidecars_untouched_witness :
  let oracle : ElasticJob.t -> error + int32 := fun _ => inr 3 in
  let j := ElasticJob.mk (ObjectMeta.mk "imagenet" "elastic-job" [])
             (ElasticJobSpec.mk "etcd-service:2379" None None) in
  let c := Container.mk "worker" "torchelastic/examples" ["python"]
             ["main.py"] "/workspace" in
  let sidecar := Container.mk "logs" "busybox" ["tail"] ["-f"] "/var/log" in
  let podTemplate :=
    PodTemplateSpec.mk (ObjectMeta.mk "" "" [])
      (PodSpec.mk [] [c; sidecar] "ExitCode") in
  exists (podTemplate' : PodTemplateSpec.t) (c' : Container.t),
    SetClusterSpecForPod oracle (ElasticJobPtr j) podTemplate "1"
    = Returned (None, podTemplate')
    /\ PodSpec.Containers (PodTemplateSpec.Spec podTemplate') = [c'; sidecar]
    /\ Container.Command c' = ["python"]
    /\ Container.WorkingDir c' = "/workspace".
Proof.
  intros oracle j c sidecar podTemplate.
  eexists.
  destruct (sidecars_untouched oracle (ElasticJobPtr j) podTemplate _ "1"
              c [sidecar] eq_refl eq_refl)
    as (c' & Hcs & _ & _ & _ & Hcmd & Hwd & _).
  exists c'. repeat split; assumption.
Defined.

Lemma main_container_access_witness :
  let oracle : ElasticJob.t -> error + int32 := fun _ => inr 3 in
  let j := ElasticJob.mk (ObjectMeta.mk "imagenet" "elastic-job" [])
             (ElasticJobSpec.mk "etcd-service:2379" None None) in
  let c := Container.mk "worker" "torchelastic/examples" [] ["main.py"] "" in
  let full := PodTemplateSpec.mk (ObjectMeta.mk "" "" []) (PodSpec.mk [] [c] "") in
  let empty := PodTemplateSpec.mk (ObjectMeta.mk "" "" []) (PodSpec.mk [] [] "") in
  (exists podTemplate' : PodTemplateSpec.t,
      SetClusterSpecForPod oracle (ElasticJobPtr j) full "0"
      = Returned (None, podTemplate'))
  /\ SetClusterSpecForPod oracle (ElasticJobPtr j) empty "0"
     = Panicked "index out of range [0] with length 0".
Proof.
  intros oracle j c full empty. split.
  - assert (Hne : PodSpec.Containers (PodTemplateSpec.Spec full) <> [])
      by discriminate.
    apply (proj2 (proj1 (main_container_access oracle full "0") Hne) j 3).
    reflexivity.
  - apply (proj2 (main_container_access oracle empty "0") eq_refl j 3).
    reflexivity.
Defined.

Lemma oracle_failure_atomic_witness :
  let oracle : ElasticJob.t -> error + int32 :=
    fun _ => inl (errorString "job has no worker replica spec") in
  let j := ElasticJob.mk (ObjectMeta.mk "imagenet" "elastic-job" [])
             (ElasticJobSpec.mk "etcd-service:2379" (Some 1) (Some 5)) in
  let claim :=
    Volume.mk "data"
      (VolumeSource.mk None None
         (Some (PersistentVolumeClaimVolumeSource.mk "data-0" false))) in
  let c := Container.mk "worker" "torchelastic/examples" [] ["main.py"] "" in
  let podTemplate :=
    PodTemplateSpec.mk (ObjectMeta.mk "" "" []) (PodSpec.mk [claim] [c] "") in
  SetClusterSpecForPod oracle (ElasticJobPtr j) podTemplate "2"
  = Returned (Some (errorString "job has no worker replica spec"), podTemplate).
Proof.
  intros oracle j claim c podTemplate.
  apply (oracle_failure_atomic oracle j). reflexivity.
Defined.

(* ------------------------------------------------------------------ *)
(** ** Pod lifecycle *)
(* ------------------------------------------------------------------ *)

Lemma fold_left_append {A : Type} (items acc : list A) :
  fold_left (fun ret x => ret ++ [x]) items acc = acc ++ items.
Proof.
  revert acc. induction items as [|x items IH]; intros acc; simpl.
  - now rewrite app_nil_r.
  - rewrite IH, <- app_assoc. reflexivity.
Qed.

Lemma convertPodList_same (list : slice Pod.t) : convertPodList list = list.
Proof.
  destruct list as [items|]; simpl; [|reflexivity].
  now rewrite fold_left_append.
Qed.

(** C8. When the job argument can be introspected and the list call
    succeeds, [GetPodsForJob] returns no error and the pods of the answer
    in the store's order; an answer without pods gives an empty sequence,
    not a failure. *)
Theorem GetPodsForJob_lists_in_order :
  forall (r : ElasticJobReconciler.t) (obj : any) (job : ObjectMeta.t)
         (items : slice Pod.t) (trace : list Call),
    Accessor obj = inr job ->
    ElasticJobReconciler.List r (ObjectMeta.Namespace job)
      (ElasticJobReconciler.GenLabels r (ObjectMeta.Name job)) = inr items ->
    exists pods : slice Pod.t,
      fst (GetPodsForJob r obj trace) = (pods, None)
      /\ elems pods = elems items
      /\ (elems items = [] -> len pods = 0%nat).
Proof.
  intros r obj job items trace Hacc Hlist.
  exists items. unfold GetPodsForJob. rewrite Hacc.
  unfold bind, emit, ret. rewrite Hlist, convertPodList_same.
  repeat split.
  destruct items as [l|]; simpl; [intros ->|]; reflexivity.
Qed.

Lemma GetPodsForJob_lists_in_order_witness :
  let pod name := Pod.mk (ObjectMeta.mk name "elastic-job" [])
                    (PodSpec.mk [] [] "") in
  let j := ElasticJob.mk (ObjectMeta.mk "imagenet" "elastic-job" [])
             (ElasticJobSpec.mk "etcd-service:2379" None None) in
  let r answer :=
    ElasticJobReconciler.mk (fun _ => None) (fun _ => None)
      (fun _ _ => inr answer) (fun name => [("job-name", name)]) in
  (exists pods,
      fst (GetPodsForJob (r (Some [])) (ElasticJobPtr j) []) = (pods, None)
      /\ len pods = 0%nat)
  /\ (exists pods,
         fst (GetPodsForJob (r (Some [pod "w-1"; pod "w-0"])) (ElasticJobPtr j) [])
         = (pods, None)
         /\ elems pods = [pod "w-1"; pod "w-0"]).
Proof.
  intros pod j r. split.
  - destruct (GetPodsForJob_lists_in_order (r (Some [])) (ElasticJobPtr j)
                _ _ [] eq_refl eq_refl) as (pods & Hret & _ & Hlen).
    exists pods. split; [exact Hret | now apply Hlen].
  - destruct (GetPodsForJob_lists_in_order (r (Some [pod "w-1"; pod "w-0"]))
                (ElasticJobPtr j) _ _ [] eq_refl eq_refl)
      as (pods & Hret & Helems & _).
    exists pods. split; [exact Hret | exact Helems].
Defined.

(** [GetPodsForJob] has no type guard: given a pod instead of a job it
    issues the list call and returns without error. *)
Lemma GetPodsForJob_no_type_guard :
  let r :=
    ElasticJobReconciler.mk (fun _ => None) (fun _ => None)
      (fun _ _ => inr (Some [])) (fun name => [("job-name", name)]) in
  let obj := OtherObject (ObjectMeta.mk "worker-0" "default" []) in
  isElasticJob obj = false
  /\ GetPodsForJob r obj []
     = ((Some [], None), [ClientList "default" [("job-name", "worker-0")]])
  /\ existsb isStoreCall (snd (GetPodsForJob r obj [])) = true
  /\ ~ (forall (r : ElasticJobReconciler.t) (obj : any) (trace : list Call),
           isElasticJob obj = false ->
           exists e : error,
             GetPodsForJob r obj trace = ((None, Some e), trace)
             /\ InvalidJobType e).
Proof.
  intros r obj. repeat split.
  intros H. destruct (H r obj [] eq_refl) as (e & Hret & _).
  discriminate Hret.
Qed.

(** C1, as the code has it. [CreatePod], [DeletePod] and
    [SetClusterSpecForPod] given an argument that is not an [ElasticJob]
    fail with [InvalidJobType] and do nothing else: no call is issued (the
    trace is the one they started with) and the template is unchanged.
    [GetPodsForJob] does not look at the kind of its argument: it fails,
    with the error of [meta.Accessor] and before any list call, when the
    argument has no object metadata, and otherwise issues the list call
    for the namespace and name found in the metadata. *)
Theorem type_guard :
  forall job : any,
    isElasticJob job = false ->
    (forall (r : ElasticJobReconciler.t) (pod : Pod.t) (trace : list Call),
        exists e : error,
          CreatePod r job pod trace = (Some e, trace) /\ InvalidJobType e)
    /\ (forall (r : ElasticJobReconciler.t) (pod : Pod.t) (trace : list Call),
           exists e : error,
             DeletePod r job pod trace = (Some e, trace) /\ InvalidJobType e)
    /\ (forall (oracle : ElasticJob.t -> error + int32)
               (podTemplate : PodTemplateSpec.t) (index : string),
           exists e : error,
             SetClusterSpecForPod oracle job podTemplate index
             = Returned (Some e, podTemplate)
             /\ InvalidJobType e)
    /\ (forall (r : ElasticJobReconciler.t) (trace : list Call),
           match Accessor job with
           | inl e => GetPodsForJob r job trace = ((None, Some e), trace)
           | inr m =>
               snd (GetPodsForJob r job trace)
               = trace ++ [ClientList (ObjectMeta.Namespace m)
                             (ElasticJobReconciler.GenLabels r
                                (ObjectMeta.Name m))]
           end).
Proof.
  intros job Hjob.
  assert (Hguard : forall kind : string, InvalidJobType (notAType kind))
    by (intros kind; now exists kind).
  destruct job as [j|m|]; [discriminate Hjob | |].
  - split; [|split; [|split]].
    + intros r pod trace. eexists. split; [reflexivity | apply Hguard].
    + intros r pod trace. eexists. split; [reflexivity | apply Hguard].
    + intros oracle podTemplate index. eexists.
      split; [reflexivity | apply Hguard].
    + intros r trace. unfold GetPodsForJob, bind, emit, ret. simpl.
      now destruct (ElasticJobReconciler.List r _ _).
  - split; [|split; [|split]].
    + intros r pod trace. eexists. split; [reflexivity | apply Hguard].
    + intros r pod trace. eexists. split; [reflexivity | apply Hguard].
    + intros oracle podTemplate index. eexists.
      split; [reflexivity | apply Hguard].
    + reflexivity.
Qed.

Lemma type_guard_witness :
  let r :=
    ElasticJobReconciler.mk (fun _ => None) (fun _ => None)
      (fun _ _ => inr None) (fun name => [("job-name", name)]) in
  let pod := Pod.mk (ObjectMeta.mk "worker-0" "default" []) (PodSpec.mk [] [] "") in
  isElasticJob NotObject = false
  /\ (exists e, CreatePod r NotObject pod [] = (Some e, []) /\ InvalidJobType e)
  /\ (exists e, DeletePod r NotObject pod [] = (Some e, []) /\ InvalidJobType e)
  /\ GetPodsForJob r NotObject [] = ((None, Some errNotObject), []).
Proof.
  intros r pod.
  pose proof (type_guard NotObject eq_refl) as (Hc & Hd & _ & Hg).
  split; [reflexivity |].
  split; [apply Hc |].
  split; [apply Hd |].
  apply (Hg r []).
Defined.


(* ================================================================== *)
(** * Further properties of the operations *)
(* ================================================================== *)

(* ------------------------------------------------------------------ *)
(** ** What the lifecycle operations ask of the store *)
(* ------------------------------------------------------------------ *)

(** X1. [CreatePod] on a job issues exactly one call against the store,
    the creation of the pod it was given, sends no event, and returns the
    store's answer as it is: the store's error, or nil. *)
Theorem CreatePod_single_create :
  forall (r : ElasticJobReconciler.t) (j : ElasticJob.t) (pod : Pod.t)
         (trace : list Call),
  exists new : list Call,
    CreatePod r (ElasticJobPtr j) pod trace
    = (ElasticJobReconciler.Create r pod, trace ++ new)
    /\ filter isStoreCall new = [ClientCreate pod]
    /\ filter isEvent new = [].
Proof.
  intros r j pod trace. unfold CreatePod, bind, emit, ret.
  destruct (ElasticJobReconciler.Create r pod) as [err|]; eexists;
    (split; [rewrite <- !app_assoc; reflexivity | split; reflexivity]).
Qed.

(** X2. [DeletePod] on a job issues exactly one call against the store,
    the deletion of the pod it was given, then sends exactly one event
    about the job: a warning with reason [FailedDeletePod] when the store
    refused, a normal event with reason [SuccessfulDeletePod] otherwise.
    It returns the store's answer as it is. *)
Theorem DeletePod_single_delete_then_event :
  forall (r : ElasticJobReconciler.t) (j : ElasticJob.t) (pod : Pod.t)
         (trace : list Call),
  exists (log message : string),
    let answer := ElasticJobReconciler.Delete r pod in
    let eventtype :=
      match answer with
      | Some _ => EventTypeWarning
      | None => EventTypeNormal
      end in
    let reason :=
      match answer with
      | Some _ => FailedDeletePodReason
      | None => SuccessfulDeletePodReason
      end in
    DeletePod r (ElasticJobPtr j) pod trace
    = (answer,
       trace ++ [LogInfof log; ClientDelete pod;
                 RecorderEventf j eventtype reason message]).
Proof.
  intros r j pod trace. unfold DeletePod, bind, emit, ret.
  destruct (ElasticJobReconciler.Delete r pod) as [err|]; do 2 eexists;
    cbv zeta; rewrite <- !app_assoc; reflexivity.
Qed.

(** X3. [GetPodsForJob] only reads: whatever its argument and whatever the
    store answers, it issues no call but at most one list call. For an
    argument with metadata that call asks for the namespace of the object
    and the labels generated from its name; when the store fails it, the
    result is nil together with the store's error. *)
Theorem GetPodsForJob_read_only :
  forall (r : ElasticJobReconciler.t) (obj : any) (trace : list Call),
    (exists new : list Call,
        snd (GetPodsForJob r obj trace) = trace ++ new
        /\ (List.length new <= 1)%nat
        /\ Forall (fun c => exists ns labels, c = ClientList ns labels) new)
    /\ (forall job : ObjectMeta.t,
           Accessor obj = inr job ->
           let ns := ObjectMeta.Namespace job in
           let labels := ElasticJobReconciler.GenLabels r (ObjectMeta.Name job) in
           snd (GetPodsForJob r obj trace) = trace ++ [ClientList ns labels]
           /\ (forall err : error,
                  ElasticJobReconciler.List r ns labels = inl err ->
                  fst (GetPodsForJob r obj trace) = (None, Some err))).
Proof.
  intros r obj trace. unfold GetPodsForJob, bind, emit, ret. split.
  - destruct (Accessor obj) as [err|job].
    + exists []. rewrite app_nil_r. repeat split; auto.
    + eexists. split; [|split].
      * destruct (ElasticJobReconciler.List r _ _); reflexivity.
      * simpl. lia.
      * constructor; [now do 2 eexists | constructor].
  - intros job ->. cbv zeta. split.
    + destruct (ElasticJobReconciler.List r _ _); reflexivity.
    + now intros err ->.
Qed.

Lemma GetPodsForJob_read_only_witness :
  let j := ElasticJob.mk (ObjectMeta.mk "imagenet" "elastic-job" [])
             (ElasticJobSpec.mk "etcd-service:2379" None None) in
  let r :=
    ElasticJobReconciler.mk (fun _ => None) (fun _ => None)
      (fun _ _ => inl (errorString "connection refused"))
      (fun name => [("job-name", name)]) in
  GetPodsForJob r (ElasticJobPtr j) []
  = ((None, Some (errorString "connection refused")),
     [ClientList "elastic-job" [("job-name", "imagenet")]]).
Proof.
  intros j r.
  destruct (proj2 (GetPodsForJob_read_only r (ElasticJobPtr j) [])
              (ElasticJob.ObjectMeta j) eq_refl) as (Htrace & Herr).
  specialize (Herr (errorString "connection refused") eq_refl).
  destruct (GetPodsForJob r (ElasticJobPtr j) []) as [res tr].
  simpl in Htrace, Herr. now rewrite Htrace, Herr.
Defined.

(* ------------------------------------------------------------------ *)
(** ** More on argument injection *)
(* ------------------------------------------------------------------ *)

(** What the backward scan has seen when it stops. *)
Lemma scanBack_sound (args : list string) (n : nat) :
  (scanBack args n = -1 ->
   forall j, (j < n)%nat -> nth j args "" <> sentinel)
  /\ (forall i : nat,
         scanBack args n = Z.of_nat i ->
         (i < n)%nat
         /\ nth i args "" = sentinel
         /\ forall j, (i < j < n)%nat -> nth j args "" <> sentinel).
Proof.
  induction n as [|n [IHabs IHfound]]; simpl.
  - split; [intros _ j Hj; lia | intros i Hi; lia].
  - destruct (String.eqb (nth n args "") sentinel) eqn:E.
    + apply String.eqb_eq in E. split; [lia |].
      intros i Hi. apply Nat2Z.inj in Hi. subst i.
      repeat split; [lia | assumption | intros j Hj; lia].
    + apply String.eqb_neq in E. split.
      * intros Habs j Hj.
        destruct (Nat.eq_dec j n) as [->|Hne]; [assumption |].
        apply IHabs; [assumption | lia].
      * intros i Hi. destruct (IHfound i Hi) as (Hlt & Hnth & Hlast).
        repeat split; [lia | assumption |].
        intros j Hj.
        destruct (Nat.eq_dec j n) as [->|Hne]; [assumption |].
        apply Hlast. lia.
Qed.

Lemma In_nth_default (l : list string) (x : string) :
  In x l -> exists j, (j < List.length l)%nat /\ nth j l "" = x.
Proof. intros H. apply (In_nth l x "") in H. exact H. Qed.

(** A list that holds the sentinel, cut at its last occurrence. *)
Lemma last_sentinel_split (args : list string) :
  In sentinel args ->
  exists pre post : list string,
    args = pre ++ sentinel :: post /\ ~ In sentinel post.
Proof.
  induction args as [|a args IH]; intros Hin; [contradiction |].
  destruct (in_dec string_dec sentinel args) as [Hargs|Hargs].
  - destruct (IH Hargs) as (pre & post & -> & Hpost).
    now exists (a :: pre), post.
  - destruct Hin as [->|Hin]; [|contradiction].
    now exists [], args.
Qed.

Lemma insertAt_after (pre post block : list string) (x : string) :
  insertAt (pre ++ x :: post) block (Z.of_nat (S (List.length pre)))
  = pre ++ x :: block ++ post.
Proof.
  unfold insertAt. rewrite Nat2Z.id.
  replace (pre ++ x :: post) with ((pre ++ [x]) ++ post)
    by now rewrite <- app_assoc.
  replace (S (List.length pre)) with (List.length (pre ++ [x]) + 0)%nat
    by (rewrite length_app; simpl; lia).
  rewrite firstn_app_2, skipn_app.
  rewrite skipn_all2 by lia.
  replace (List.length (pre ++ [x]) + 0 - List.length (pre ++ [x]))%nat
    with 0%nat by lia.
  simpl. rewrite app_nil_r, <- app_assoc. reflexivity.
Qed.

(** A block without the sentinel leaves the insertion point where it is. *)
Lemma insertIndex_stable (args block : list string) :
  ~ In sentinel block ->
  insertIndex (insertAt args block (insertIndex args)) = insertIndex args.
Proof.
  intros Hblock.
  destruct (in_dec string_dec sentinel args) as [Hin|Habsent].
  - destruct (last_sentinel_split args Hin) as (pre & post & -> & Hpost).
    rewrite (insertIndex_last pre post Hpost), insertAt_after.
    apply insertIndex_last.
    intros H. apply in_app_or in H. tauto.
  - rewrite (insertIndex_absent args Habsent).
    unfold insertAt. simpl. apply insertIndex_absent.
    intros H. apply in_app_or in H. tauto.
Qed.

Lemma insertAt_insertAt (args b1 b2 : list string) (idx : Z) :
  0 <= idx <= Z.of_nat (List.length args) ->
  insertAt (insertAt args b1 idx) b2 idx = insertAt args (b2 ++ b1) idx.
Proof.
  intros Hidx. unfold insertAt.
  set (k := Z.to_nat idx).
  assert (Hk : List.length (firstn k args) = k)
    by (apply firstn_length_le; lia).
  rewrite firstn_app, skipn_app, Hk, Nat.sub_diag.
  rewrite firstn_firstn, Nat.min_id.
  rewrite (skipn_all2 (firstn k args)) by lia.
  simpl. rewrite app_nil_r, <- !app_assoc. reflexivity.
Qed.

Lemma InsertTorchArgs_twice_same (c : Container.t) (block : list string) :
  ~ In sentinel block ->
  InsertTorchArgs (InsertTorchArgs c block) block
  = InsertTorchArgs c (block ++ block).
Proof.
  intros Hb. unfold InsertTorchArgs.
  set (a1 := insertAt (Container.Args c) block (insertIndex (Container.Args c))).
  transitivity (Container.set_Args c (insertAt a1 block (insertIndex a1)));
    [reflexivity |].
  f_equal. subst a1.
  rewrite (insertIndex_stable (Container.Args c) block Hb).
  apply insertAt_insertAt, insertIndex_bounds.
Qed.

(** X4. Injections stack at one place. When the first block does not
    hold the sentinel, a second injection finds the same insertion point,
    so its block lands directly in front of the first one: the result is
    that of injecting the second block followed by the first in one go. *)
Theorem InsertTorchArgs_stacks_in_front :
  forall (c : Container.t) (b1 b2 : list string),
    ~ In sentinel b1 ->
    InsertTorchArgs (InsertTorchArgs c b1) b2 = InsertTorchArgs c (b2 ++ b1).
Proof.
  intros c b1 b2 Hb1. unfold InsertTorchArgs.
  set (a1 := insertAt (Container.Args c) b1 (insertIndex (Container.Args c))).
  transitivity (Container.set_Args c (insertAt a1 b2 (insertIndex a1)));
    [reflexivity |].
  f_equal. subst a1.
  rewrite (insertIndex_stable (Container.Args c) b1 Hb1).
  apply insertAt_insertAt, insertIndex_bounds.
Qed.

Lemma InsertTorchArgs_stacks_in_front_witness :
  let c := Container.mk "worker" "img" ["python"]
             ["-m"; "torchelastic.distributed.launch"; "main.py"] "" in
  Container.Args (InsertTorchArgs (InsertTorchArgs c ["--a"; "1"]) ["--b"])
  = ["-m"; "torchelastic.distributed.launch"; "--b"; "--a"; "1"; "main.py"].
Proof.
  intros c.
  assert (Hb1 : ~ In sentinel ["--a"; "1"]).
  { simpl. intros [H|[H|[]]]; discriminate H. }
  rewrite (InsertTorchArgs_stacks_in_front c ["--a"; "1"] ["--b"] Hb1).
  reflexivity.
Defined.

(** X5. The trivial inputs: injecting an empty block gives back the
    container as it was, and injecting into an empty argument list gives
    the block itself. *)
Theorem InsertTorchArgs_empty_inputs :
  forall (c : Container.t) (block : list string),
    InsertTorchArgs c [] = c
    /\ (Container.Args c = [] ->
        Container.Args (InsertTorchArgs c block) = block).
Proof.
  intros [name image command args wd] block. split.
  - unfold InsertTorchArgs, insertAt, Container.set_Args. simpl.
    now rewrite firstn_skipn.
  - cbn [Container.Args]. intros ->. rewrite InsertTorchArgs_Args.
    cbn [Container.Args]. unfold insertAt.
    rewrite firstn_nil, skipn_nil. simpl. apply app_nil_r.
Qed.

(** X6. Where the block goes, read backwards. The insertion point is a
    position of the list (both slice expressions are within bounds); it
    is the front exactly when the sentinel occurs nowhere; and when it is
    not the front, the argument right before it is the sentinel and no
    argument from it on is. *)
Theorem insertIndex_characterised :
  forall args : list string,
    let idx := insertIndex args in
    0 <= idx <= Z.of_nat (List.length args)
    /\ (idx = 0 <-> ~ In sentinel args)
    /\ (0 < idx ->
        nth_error args (Z.to_nat idx - 1) = Some sentinel
        /\ ~ In sentinel (skipn (Z.to_nat idx) args)).
Proof.
  intros args idx. subst idx.
  pose proof (insertIndex_bounds args) as Hb.
  destruct (scanBack_sound args (List.length args)) as [Habs Hfound].
  split; [exact Hb | split; [split |]].
  - intros H0 Hin. unfold insertIndex in H0.
    destruct (In_nth_default args sentinel Hin) as (j & Hj & Hnth).
    apply (Habs ltac:(lia) j Hj Hnth).
  - apply insertIndex_absent.
  - intros Hpos. unfold insertIndex in *.
    set (i := Z.to_nat (scanBack args (List.length args))).
    assert (Hi : scanBack args (List.length args) = Z.of_nat i)
      by (subst i; lia).
    destruct (Hfound i Hi) as (Hlt & Hnth & Hlast).
    replace (Z.to_nat (scanBack args (List.length args) + 1)) with (S i)
      by lia.
    split.
    + replace (S i - 1)%nat with i by lia.
      rewrite <- Hnth. now apply nth_error_nth'.
    + intros Hin. apply In_nth_error in Hin. destruct Hin as [n Hn].
      rewrite nth_error_skipn in Hn.
      assert (Hn' : (S i + n < List.length args)%nat).
      { apply nth_error_Some. congruence. }
      apply (Hlast (S i + n)%nat); [lia |].
      now apply nth_error_nth.
Qed.

Lemma InsertTorchArgs_empty_inputs_witness :
  let c := Container.mk "worker" "img" ["python"; "main.py"] [] "" in
  Container.Args c = []
  /\ Container.Args (InsertTorchArgs c ["--rdvz"; "etcd"]) = ["--rdvz"; "etcd"].
Proof.
  intros c. split; [reflexivity |].
  apply (proj2 (InsertTorchArgs_empty_inputs c ["--rdvz"; "etcd"])).
  reflexivity.
Defined.

Lemma insertIndex_characterised_witness :
  let args := ["-m"; "torchelastic.distributed.launch"; "main.py"; "--lr"] in
  0 < insertIndex args
  /\ nth_error args (Z.to_nat (insertIndex args) - 1) = Some sentinel
  /\ ~ In sentinel (skipn (Z.to_nat (insertIndex args)) args).
Proof.
  intros args.
  assert (Hpos : 0 < insertIndex args) by reflexivity.
  split; [exact Hpos |].
  exact (proj2 (proj2 (insertIndex_characterised args)) Hpos).
Defined.

(* ------------------------------------------------------------------ *)
(** ** More on claim reindexing *)
(* ------------------------------------------------------------------ *)

Lemma string_append_assoc (s1 s2 s3 : string) :
  ((s1 ++ s2) ++ s3 = s1 ++ (s2 ++ s3))%string.
Proof. induction s1 as [|a s1 IH]; simpl; congruence. Qed.

Lemma ModifyVolumeMount_as_map (podTemplate : PodTemplateSpec.t) (index : string) :
  ModifyVolumeMount podTemplate index
  = PodTemplateSpec.set_Spec podTemplate
      (PodSpec.set_Volumes (PodTemplateSpec.Spec podTemplate)
         (map (fun v => reindexVolume v index)
            (PodSpec.Volumes (PodTemplateSpec.Spec podTemplate)))).
Proof.
  destruct podTemplate as [meta [volumes containers policy]].
  unfold ModifyVolumeMount.
  cbn [PodTemplateSpec.Spec PodSpec.Volumes].
  now destruct volumes.
Qed.

Lemma ModifyVolumeMount_twice
    (podTemplate : PodTemplateSpec.t) (index1 index2 : string) :
  ModifyVolumeMount (ModifyVolumeMount podTemplate index1) index2
  = PodTemplateSpec.set_Spec podTemplate
      (PodSpec.set_Volumes (PodTemplateSpec.Spec podTemplate)
         (map (fun v => reindexVolume (reindexVolume v index1) index2)
            (PodSpec.Volumes (PodTemplateSpec.Spec podTemplate)))).
Proof.
  rewrite (ModifyVolumeMount_as_map (ModifyVolumeMount _ _) index2).
  rewrite (ModifyVolumeMount_as_map podTemplate index1).
  destruct podTemplate as [meta [volumes containers policy]].
  cbn [PodTemplateSpec.set_Spec PodSpec.set_Volumes PodTemplateSpec.Spec
       PodTemplateSpec.ObjectMeta PodSpec.Volumes PodSpec.Containers
       PodSpec.RestartPolicy].
  now rewrite map_map.
Qed.

Lemma map_eq_at {A B : Type} (f g : A -> B) (l : list A) :
  map f l = map g l -> forall x, In x l -> f x = g x.
Proof.
  induction l as [|a l IH]; simpl; intros Heq x Hin; [contradiction |].
  injection Heq as Ha Hl. destruct Hin as [<-|Hin]; auto.
Qed.

(** One volume: after an index without separator, a new index replaces
    the old one. *)
Lemma reindexVolume_replaces (v : Volume.t) (index1 index2 : string) :
  occurs sep index1 = false ->
  reindexVolume (reindexVolume v index1) index2 = reindexVolume v index2.
Proof.
  intros Hindex.
  destruct (VolumeSource.PersistentVolumeClaim (Volume.VolumeSource v))
    as [pvc|] eqn:Hpvc.
  - destruct (occurs sep (PersistentVolumeClaimVolumeSource.ClaimName pvc))
      eqn:Hsep.
    + destruct (last_sep_split _ Hsep) as (pre & suf & Hname & Hsuf).
      rewrite (reindexVolume_last_sep v index1 pvc pre suf Hpvc Hname Hsuf).
      rewrite (reindexVolume_last_sep v index2 pvc pre suf Hpvc Hname Hsuf).
      now rewrite (reindexVolume_last_sep
                     (withClaimName v pvc (pre ++ String sep index1)%string)
                     index2
                     (PersistentVolumeClaimVolumeSource.mk
                        (pre ++ String sep index1)%string
                        (PersistentVolumeClaimVolumeSource.ReadOnly pvc))
                     pre index1 eq_refl eq_refl Hindex).
    + now rewrite (reindexVolume_no_sep v index1 pvc Hpvc Hsep).
  - now rewrite (reindexVolume_no_claim v index1 Hpvc).
Qed.

(** One volume: an index with a separator is appended to, not replaced. *)
Lemma reindexVolume_grows (v : Volume.t) (index : string)
    (pvc : PersistentVolumeClaimVolumeSource.t) :
  VolumeSource.PersistentVolumeClaim (Volume.VolumeSource v) = Some pvc ->
  occurs sep (PersistentVolumeClaimVolumeSource.ClaimName pvc) = true ->
  occurs sep index = true ->
  reindexVolume (reindexVolume v index) index <> reindexVolume v index.
Proof.
  intros Hpvc Hsep Hindex.
  destruct (last_sep_split _ Hsep) as (pre & suf & Hname & Hsuf).
  destruct (last_sep_split _ Hindex) as (a & b & Hab & Hb).
  rewrite (reindexVolume_last_sep v index pvc pre suf Hpvc Hname Hsuf).
  assert (Hname1 : (pre ++ String sep index
                    = (pre ++ String sep a) ++ String sep b)%string).
  { rewrite Hab. rewrite string_append_assoc. reflexivity. }
  rewrite (reindexVolume_last_sep
             (withClaimName v pvc (pre ++ String sep index)%string)
             index
             (PersistentVolumeClaimVolumeSource.mk
                (pre ++ String sep index)%string
                (PersistentVolumeClaimVolumeSource.ReadOnly pvc))
             (pre ++ String sep a) b eq_refl Hname1 Hb).
  intros Heq.
  apply (f_equal
           (fun v =>
              match VolumeSource.PersistentVolumeClaim
                      (Volume.VolumeSource v) with
              | Some p =>
                  String.length (PersistentVolumeClaimVolumeSource.ClaimName p)
              | None => O
              end)) in Heq.
  cbn [withClaimName Volume.VolumeSource VolumeSource.PersistentVolumeClaim
       PersistentVolumeClaimVolumeSource.ClaimName] in Heq.
  rewrite !length_append in Heq. simpl in Heq. lia.
Qed.

(** X7. Reindexing again replaces the index: after a reindexing with an
    index that holds no separator, reindexing with a second index gives
    what the second reindexing alone gives. In particular reindexing
    twice with the same such index is the same as reindexing once. *)
Theorem ModifyVolumeMount_last_index_wins :
  forall (podTemplate : PodTemplateSpec.t) (index1 index2 : string),
    occurs sep index1 = false ->
    ModifyVolumeMount (ModifyVolumeMount podTemplate index1) index2
    = ModifyVolumeMount podTemplate index2
    /\ ModifyVolumeMount (ModifyVolumeMount podTemplate index1) index1
       = ModifyVolumeMount podTemplate index1.
Proof.
  intros podTemplate index1 index2 Hindex.
  rewrite !ModifyVolumeMount_twice, !ModifyVolumeMount_as_map.
  split; do 2 f_equal; apply map_ext; intros v;
    now apply reindexVolume_replaces.
Qed.

Lemma ModifyVolumeMount_last_index_wins_witness :
  let claim name :=
    Volume.mk "data"
      (VolumeSource.mk None None
         (Some (PersistentVolumeClaimVolumeSource.mk name false))) in
  let podTemplate :=
    PodTemplateSpec.mk (ObjectMeta.mk "worker" "default" [])
      (PodSpec.mk [claim "model-data-0"; claim "shared"] [] "Never") in
  occurs sep "3" = false
  /\ PodSpec.Volumes
       (PodTemplateSpec.Spec
          (ModifyVolumeMount (ModifyVolumeMount podTemplate "3") "7"))
     = [claim "model-data-7"; claim "shared"].
Proof.
  intros claim podTemplate. split; [reflexivity |].
  rewrite (proj1 (ModifyVolumeMount_last_index_wins podTemplate "3" "7"
                    eq_refl)).
  reflexivity.
Defined.

(** X8. An index that itself holds a separator is not replaced but
    extended: if the template has a claim whose name holds a separator,
    reindexing twice with such an index differs from reindexing once (the
    second pass keeps the part of the first index before its last
    separator). *)
Theorem ModifyVolumeMount_index_with_separator :
  forall (podTemplate : PodTemplateSpec.t) (index : string)
         (v : Volume.t) (pvc : PersistentVolumeClaimVolumeSource.t),
    In v (PodSpec.Volumes (PodTemplateSpec.Spec podTemplate)) ->
    VolumeSource.PersistentVolumeClaim (Volume.VolumeSource v) = Some pvc ->
    occurs sep (PersistentVolumeClaimVolumeSource.ClaimName pvc) = true ->
    occurs sep index = true ->
    ModifyVolumeMount (ModifyVolumeMount podTemplate index) index
    <> ModifyVolumeMount podTemplate index.
Proof.
  intros podTemplate index v pvc Hin Hpvc Hsep Hindex Heq.
  rewrite ModifyVolumeMount_twice, ModifyVolumeMount_as_map in Heq.
  apply (f_equal (fun t => PodSpec.Volumes (PodTemplateSpec.Spec t))) in Heq.
  cbn [PodTemplateSpec.set_Spec PodSpec.set_Volumes PodTemplateSpec.Spec
       PodSpec.Volumes] in Heq.
  apply (reindexVolume_grows v index pvc Hpvc Hsep Hindex).
  exact (map_eq_at _ _ _ Heq v Hin).
Qed.

Lemma ModifyVolumeMount_index_with_separator_witness :
  let claim name :=
    Volume.mk "data"
      (VolumeSource.mk None None
         (Some (PersistentVolumeClaimVolumeSource.mk name false))) in
  let podTemplate :=
    PodTemplateSpec.mk (ObjectMeta.mk "worker" "default" [])
      (PodSpec.mk [claim "data-0"] [] "Never") in
  PodSpec.Volumes
    (PodTemplateSpec.Spec (ModifyVolumeMount podTemplate "w-1"))
  = [claim "data-w-1"]
  /\ PodSpec.Volumes
       (PodTemplateSpec.Spec
          (ModifyVolumeMount (ModifyVolumeMount podTemplate "w-1") "w-1"))
     = [claim "data-w-w-1"]
  /\ ModifyVolumeMount (ModifyVolumeMount podTemplate "w-1") "w-1"
     <> ModifyVolumeMount podTemplate "w-1".
Proof.
  intros claim podTemplate.
  split; [reflexivity | split; [reflexivity |]].
  apply (ModifyVolumeMount_index_with_separator podTemplate "w-1"
           (claim "data-0") (PersistentVolumeClaimVolumeSource.mk "data-0" false)).
  - now left.
  - reflexivity.
  - reflexivity.
  - reflexivity.
Defined.

(* ------------------------------------------------------------------ *)
(** ** More on template configuration *)
(* ------------------------------------------------------------------ *)

(** Every string of the launch block starts with a dash, the sentinel
    does not. *)
Lemma launchDefaultArgs_no_sentinel
    (j : ElasticJob.t) (minReplicas maxReplicas : int32) :
  ~ In sentinel (launchDefaultArgs j minReplicas maxReplicas).
Proof.
  unfold launchDefaultArgs, sentinel.
  intros [H|[H|[H|[H|[]]]]]; discriminate H.
Qed.

Lemma ModifyVolumeMount_frame (podTemplate : PodTemplateSpec.t) (index : string) :
  PodTemplateSpec.ObjectMeta (ModifyVolumeMount podTemplate index)
  = PodTemplateSpec.ObjectMeta podTemplate
  /\ PodSpec.RestartPolicy (PodTemplateSpec.Spec (ModifyVolumeMount podTemplate index))
     = PodSpec.RestartPolicy (PodTemplateSpec.Spec podTemplate)
  /\ PodSpec.Volumes (PodTemplateSpec.Spec (ModifyVolumeMount podTemplate index))
     = map (fun v => reindexVolume v index)
         (PodSpec.Volumes (PodTemplateSpec.Spec podTemplate)).
Proof. rewrite ModifyVolumeMount_as_map. repeat split. Qed.

Lemma ModifyVolumeMount_Volumes (podTemplate : PodTemplateSpec.t) (index : string) :
  PodSpec.Volumes (PodTemplateSpec.Spec (ModifyVolumeMount podTemplate index))
  = map (fun v => reindexVolume v index)
      (PodSpec.Volumes (PodTemplateSpec.Spec podTemplate)).
Proof. apply ModifyVolumeMount_frame. Qed.

Section ConfigureFurther.

Variable computeDesiredReplicas : ElasticJob.t -> error + int32.

(** The three ways out of [SetClusterSpecForPod] for a job. *)
Lemma SetClusterSpecForPod_cases
    (job : any) (podTemplate : PodTemplateSpec.t) (index : string) :
  (exists e, SetClusterSpecForPod computeDesiredReplicas job podTemplate index
             = Returned (Some e, podTemplate)
             /\ (isElasticJob job = false
                 \/ exists j, job = ElasticJobPtr j
                              /\ computeDesiredReplicas j = inl e))
  \/ (exists j d, job = ElasticJobPtr j
                  /\ computeDesiredReplicas j = inr d
                  /\ PodSpec.Containers (PodTemplateSpec.Spec podTemplate) = []
                  /\ exists msg,
                       SetClusterSpecForPod computeDesiredReplicas job
                         podTemplate index = Panicked msg)
  \/ (exists j d c cs podTemplate',
         job = ElasticJobPtr j
         /\ computeDesiredReplicas j = inr d
         /\ PodSpec.Containers (PodTemplateSpec.Spec podTemplate) = c :: cs
         /\ SetClusterSpecForPod computeDesiredReplicas job podTemplate index
            = Returned (None, podTemplate')).
Proof.
  destruct job as [j|m|].
  - destruct (computeDesiredReplicas j) as [e|d] eqn:Hd.
    + left. exists e. split.
      * unfold SetClusterSpecForPod. now rewrite Hd.
      * right. now exists j.
    + destruct (PodSpec.Containers (PodTemplateSpec.Spec podTemplate))
        as [|c cs] eqn:Hcs.
      * right. left. exists j, d. repeat split; auto.
        eexists. unfold SetClusterSpecForPod. rewrite Hd.
        destruct (resolveReplicas j d). rewrite Hcs. reflexivity.
      * right. right. exists j, d, c, cs. eexists. repeat split; auto.
        exact (SetClusterSpecForPod_success computeDesiredReplicas j d
                 podTemplate index c cs Hd Hcs).
  - left. eexists. split; [reflexivity | now left].
  - left. eexists. split; [reflexivity | now left].
Qed.

(** X9. [SetClusterSpecForPod] succeeds exactly when its argument is a
    job, the oracle answers for it and the template has a container; in
    every other case it returns an error or panics. *)
Theorem SetClusterSpecForPod_succeeds_iff :
  forall (job : any) (podTemplate : PodTemplateSpec.t) (index : string),
    (exists podTemplate' : PodTemplateSpec.t,
        SetClusterSpecForPod computeDesiredReplicas job podTemplate index
        = Returned (None, podTemplate'))
    <-> (exists (j : ElasticJob.t) (d : int32),
            job = ElasticJobPtr j
            /\ computeDesiredReplicas j = inr d
            /\ PodSpec.Containers (PodTemplateSpec.Spec podTemplate) <> []).
Proof.
  intros job podTemplate index. split.
  - intros (podTemplate' & Hret).
    destruct (SetClusterSpecForPod_cases job podTemplate index)
      as [(e & He & _) | [(j & d & _ & _ & _ & msg & Hp)
                         | (j & d & c & cs & t' & -> & Hd & Hcs & _)]].
    + rewrite Hret in He. discriminate He.
    + rewrite Hret in Hp. discriminate Hp.
    + exists j, d. repeat split; [assumption | congruence].
  - intros (j & d & -> & Hd & Hne).
    destruct (PodSpec.Containers (PodTemplateSpec.Spec podTemplate))
      as [|c cs] eqn:Hcs; [congruence |].
    eexists.
    exact (SetClusterSpecForPod_success computeDesiredReplicas j d
             podTemplate index c cs Hd Hcs).
Qed.

(** X10. No partial update: whenever [SetClusterSpecForPod] returns an
    error, whatever the cause, the template it returns is the template it
    was given. *)
Theorem SetClusterSpecForPod_error_leaves_template :
  forall (job : any) (podTemplate podTemplate' : PodTemplateSpec.t)
         (index : string) (e : error),
    SetClusterSpecForPod computeDesiredReplicas job podTemplate index
    = Returned (Some e, podTemplate') ->
    podTemplate' = podTemplate.
Proof.
  intros job podTemplate podTemplate' index e Hret.
  destruct (SetClusterSpecForPod_cases job podTemplate index)
    as [(e' & He & _) | [(j & d & _ & _ & _ & msg & Hp)
                        | (j & d & c & cs & t' & _ & _ & _ & Hok)]].
  - rewrite Hret in He. now injection He.
  - rewrite Hret in Hp. discriminate Hp.
  - rewrite Hret in Hok. discriminate Hok.
Qed.

(** X11. Outside the containers, a successful call changes the template
    as [ModifyVolumeMount] alone does: the metadata and the restart policy
    are untouched and the volumes are those of the reindexed template. *)
Theorem SetClusterSpecForPod_template_frame :
  forall (job : any) (podTemplate podTemplate' : PodTemplateSpec.t)
         (index : string),
    SetClusterSpecForPod computeDesiredReplicas job podTemplate index
    = Returned (None, podTemplate') ->
    PodTemplateSpec.ObjectMeta podTemplate'
    = PodTemplateSpec.ObjectMeta podTemplate
    /\ PodSpec.RestartPolicy (PodTemplateSpec.Spec podTemplate')
       = PodSpec.RestartPolicy (PodTemplateSpec.Spec podTemplate)
    /\ PodSpec.Volumes (PodTemplateSpec.Spec podTemplate')
       = PodSpec.Volumes
           (PodTemplateSpec.Spec (ModifyVolumeMount podTemplate index)).
Proof.
  intros job podTemplate podTemplate' index Hret.
  destruct (SetClusterSpecForPod_cases job podTemplate index)
    as [(e' & He & _) | [(j & d & _ & _ & _ & msg & Hp)
                        | (j & d & c & cs & t' & -> & Hd & Hcs & _)]].
  - rewrite Hret in He. discriminate He.
  - rewrite Hret in Hp. discriminate Hp.
  - rewrite (SetClusterSpecForPod_success computeDesiredReplicas j d
               podTemplate index c cs Hd Hcs) in Hret.
    injection Hret as <-.
    destruct (ModifyVolumeMount_frame podTemplate index) as (_ & _ & Hv).
    rewrite Hv.
    match goal with
    | |- context [ModifyVolumeMount ?t index] =>
        destruct (ModifyVolumeMount_frame t index) as (Hm & Hp & Hv')
    end.
    rewrite Hm, Hp, Hv'. repeat split.
Qed.

(** X12. Configuring twice stacks the flags: a second call, on the
    template the first call produced, succeeds as well and leaves the main
    container with the launch block twice, both copies at the insertion
    point of the original arguments; the sidecars are still untouched.
    With an index that holds no separator the volumes are those of the
    first call. *)
Theorem SetClusterSpecForPod_twice :
  forall (j : ElasticJob.t) (d : int32) (podTemplate t1 : PodTemplateSpec.t)
         (index : string) (c : Container.t) (cs : list Container.t),
    computeDesiredReplicas j = inr d ->
    PodSpec.Containers (PodTemplateSpec.Spec podTemplate) = c :: cs ->
    SetClusterSpecForPod computeDesiredReplicas (ElasticJobPtr j)
      podTemplate index = Returned (None, t1) ->
    let block :=
      launchDefaultArgs j (fst (resolveReplicas j d))
        (snd (resolveReplicas j d)) in
    exists t2 : PodTemplateSpec.t,
      SetClusterSpecForPod computeDesiredReplicas (ElasticJobPtr j) t1 index
      = Returned (None, t2)
      /\ PodSpec.Containers (PodTemplateSpec.Spec t2)
         = InsertTorchArgs c (block ++ block) :: cs
      /\ (occurs sep index = false ->
          PodSpec.Volumes (PodTemplateSpec.Spec t2)
          = PodSpec.Volumes (PodTemplateSpec.Spec t1)).
Proof.
  intros j d podTemplate t1 index c cs Hd Hcs Hret block.
  destruct (SetClusterSpecForPod_Containers computeDesiredReplicas j d
              podTemplate index c cs Hd Hcs) as (t1' & Hret1 & Hcs1).
  rewrite Hret in Hret1. injection Hret1 as <-.
  destruct (SetClusterSpecForPod_Containers computeDesiredReplicas j d
              t1 index _ cs Hd Hcs1) as (t2 & Hret2 & Hcs2).
  exists t2. split; [exact Hret2 | split].
  - rewrite Hcs2. f_equal.
    apply InsertTorchArgs_twice_same, launchDefaultArgs_no_sentinel.
  - intros Hindex.
    rewrite (SetClusterSpecForPod_success computeDesiredReplicas j d
               t1 index _ cs Hd Hcs1) in Hret2.
    injection Hret2 as <-.
    rewrite (SetClusterSpecForPod_success computeDesiredReplicas j d
               podTemplate index c cs Hd Hcs) in Hret.
    injection Hret as <-.
    repeat (rewrite ModifyVolumeMount_Volumes;
            cbn [PodTemplateSpec.set_Spec PodSpec.set_Containers
                 PodTemplateSpec.Spec PodSpec.Volumes]).
    rewrite map_map. apply map_ext. intros v.
    now apply reindexVolume_replaces.
Qed.

(** X13. With both bounds explicit the oracle's answer is not used: two
    oracles that both answer for the job, whatever they answer, lead to
    the same result. *)
Theorem explicit_bounds_ignore_oracle_value :
  forall (oracle' : ElasticJob.t -> error + int32) (j : ElasticJob.t)
         (d d' lo hi : int32) (podTemplate : PodTemplateSpec.t)
         (index : string),
    ElasticJobSpec.MinReplicas (ElasticJob.Spec j) = Some lo ->
    ElasticJobSpec.MaxReplicas (ElasticJob.Spec j) = Some hi ->
    computeDesiredReplicas j = inr d ->
    oracle' j = inr d' ->
    SetClusterSpecForPod computeDesiredReplicas (ElasticJobPtr j)
      podTemplate index
    = SetClusterSpecForPod oracle' (ElasticJobPtr j) podTemplate index.
Proof.
  intros oracle' j d d' lo hi podTemplate index Hlo Hhi Hd Hd'.
  unfold SetClusterSpecForPod, resolveReplicas.
  now rewrite Hd, Hd', Hlo, Hhi.
Qed.

End ConfigureFurther.

Lemma SetClusterSpecForPod_succeeds_iff_witness :
  let oracle : ElasticJob.t -> error + int32 := fun _ => inr 2 in
  let j := ElasticJob.mk (ObjectMeta.mk "imagenet" "elastic-job" [])
             (ElasticJobSpec.mk "etcd-service:2379" None None) in
  let c := Container.mk "worker" "img" ["python"] ["main.py"] "" in
  let podTemplate :=
    PodTemplateSpec.mk (ObjectMeta.mk "" "" []) (PodSpec.mk [] [c] "") in
  (exists podTemplate',
      SetClusterSpecForPod oracle (ElasticJobPtr j) podTemplate "0"
      = Returned (None, podTemplate'))
  /\ ~ (exists podTemplate',
           SetClusterSpecForPod oracle NotObject podTemplate "0"
           = Returned (None, podTemplate')).
Proof.
  intros oracle j c podTemplate. split.
  - apply (proj2 (SetClusterSpecForPod_succeeds_iff oracle (ElasticJobPtr j)
                    podTemplate "0")).
    exists j, 2. repeat split. discriminate.
  - intros H.
    apply (proj1 (SetClusterSpecForPod_succeeds_iff oracle NotObject
                    podTemplate "0")) in H.
    destruct H as (j' & d' & Hjob & _). discriminate Hjob.
Defined.

Lemma SetClusterSpecForPod_error_leaves_template_witness :
  let oracle : ElasticJob.t -> error + int32 :=
    fun _ => inl (errorString "job has no worker replica spec") in
  let j := ElasticJob.mk (ObjectMeta.mk "imagenet" "elastic-job" [])
             (ElasticJobSpec.mk "etcd-service:2379" None None) in
  let c := Container.mk "worker" "img" ["python"] ["main.py"] "" in
  let podTemplate :=
    PodTemplateSpec.mk (ObjectMeta.mk "" "" []) (PodSpec.mk [] [c] "") in
  exists (e : error) (podTemplate' : PodTemplateSpec.t),
    SetClusterSpecForPod oracle (ElasticJobPtr j) podTemplate "0"
    = Returned (Some e, podTemplate')
    /\ podTemplate' = podTemplate.
Proof.
  intros oracle j c podTemplate. do 2 eexists.
  assert (Hret : SetClusterSpecForPod oracle (ElasticJobPtr j) podTemplate "0"
                 = Returned (Some (errorString "job has no worker replica spec"),
                             podTemplate)) by reflexivity.
  split; [exact Hret |].
  exact (SetClusterSpecForPod_error_leaves_template oracle (ElasticJobPtr j)
           podTemplate podTemplate "0" _ Hret).
Defined.

Lemma SetClusterSpecForPod_template_frame_witness :
  let oracle : ElasticJob.t -> error + int32 := fun _ => inr 2 in
  let j := ElasticJob.mk (ObjectMeta.mk "imagenet" "elastic-job" [])
             (ElasticJobSpec.mk "etcd-service:2379" None None) in
  let claim name :=
    Volume.mk "data"
      (VolumeSource.mk None None
         (Some (PersistentVolumeClaimVolumeSource.mk name false))) in
  let c := Container.mk "worker" "img" ["python"] ["main.py"] "" in
  let podTemplate :=
    PodTemplateSpec.mk (ObjectMeta.mk "worker" "elastic-job" [("app", "w")])
      (PodSpec.mk [claim "data-0"] [c] "ExitCode") in
  exists podTemplate' : PodTemplateSpec.t,
    SetClusterSpecForPod oracle (ElasticJobPtr j) podTemplate "5"
    = Returned (None, podTemplate')
    /\ PodTemplateSpec.ObjectMeta podTemplate'
       = ObjectMeta.mk "worker" "elastic-job" [("app", "w")]
    /\ PodSpec.Volumes (PodTemplateSpec.Spec podTemplate') = [claim "data-5"].
Proof.
  intros oracle j claim c podTemplate. eexists.
  split; [reflexivity |].
  destruct (SetClusterSpecForPod_template_frame oracle (ElasticJobPtr j)
              podTemplate _ "5" eq_refl) as (Hmeta & _ & Hvols).
  split; [exact Hmeta | exact Hvols].
Defined.

Lemma SetClusterSpecForPod_twice_witness :
  let oracle : ElasticJob.t -> error + int32 := fun _ => inr 2 in
  let j := ElasticJob.mk (ObjectMeta.mk "imagenet" "elastic-job" [])
             (ElasticJobSpec.mk "etcd:2379" None None) in
  let c := Container.mk "worker" "img" ["python"]
             ["-m"; "torchelastic.distributed.launch"; "main.py"] "" in
  let podTemplate :=
    PodTemplateSpec.mk (ObjectMeta.mk "" "" []) (PodSpec.mk [] [c] "") in
  exists t1 t2 : PodTemplateSpec.t,
    SetClusterSpecForPod oracle (ElasticJobPtr j) podTemplate "0"
    = Returned (None, t1)
    /\ SetClusterSpecForPod oracle (ElasticJobPtr j) t1 "0"
       = Returned (None, t2)
    /\ PodSpec.Containers (PodTemplateSpec.Spec t2)
       = [ Container.mk "worker" "img" ["python"]
             ["-m"; "torchelastic.distributed.launch";
              "--rdzv_backend=etcd"; "--rdzv_endpoint=etcd:2379";
              "--rdzv_id=imagenet"; "--nnodes=2:2";
              "--rdzv_backend=etcd"; "--rdzv_endpoint=etcd:2379";
              "--rdzv_id=imagenet"; "--nnodes=2:2"; "main.py"] "" ].
Proof.
  intros oracle j c podTemplate. eexists.
  destruct (SetClusterSpecForPod_twice oracle j 2 podTemplate _ "0" c []
              eq_refl eq_refl eq_refl) as (t2 & Hret2 & Hcs2 & _).
  exists t2. split; [reflexivity | split; [exact Hret2 | exact Hcs2]].
Defined.

Lemma explicit_bounds_ignore_oracle_value_witness :
  let j := ElasticJob.mk (ObjectMeta.mk "imagenet" "elastic-job" [])
             (ElasticJobSpec.mk "etcd:2379" (Some 1) (Some 8)) in
  let c := Container.mk "worker" "img" ["python"] ["main.py"] "" in
  let podTemplate :=
    PodTemplateSpec.mk (ObjectMeta.mk "" "" []) (PodSpec.mk [] [c] "") in
  SetClusterSpecForPod (fun _ => inr 2) (ElasticJobPtr j) podTemplate "0"
  = SetClusterSpecForPod (fun _ => inr 6) (ElasticJobPtr j) podTemplate "0".
Proof.
  intros j c podTemplate.
  apply (explicit_bounds_ignore_oracle_value (fun _ => inr 2) (fun _ => inr 6)
           j 2 6 1 8 podTemplate "0"); reflexivity.
Defined.
